(** * Voice-guided recipe viewer: a shallow embedding of [src/index.tsx]

    The program is a single TypeScript module: four views toggled by a
    [hidden] class, two module-level session variables ([recipeSteps],
    [currentStepIndex]), one asynchronous request to a content-generation
    service and the browser's speech synthesis.  The module-level variables,
    the DOM elements the module holds and the parts of [window] it touches
    are gathered in one [state] record that every function threads
    explicitly. *)

From Stdlib Require Import ZArith NArith List String Ascii Bool Lia.
Import ListNotations.
Open Scope Z_scope.
Set Warnings "-register-all".

(** ** JavaScript strings and values *)

(** A JavaScript string is a sequence of UTF-16 code units. *)
Definition jsstring := list N.

(** Source literals are ASCII; [lit] turns one into its code units. *)
Definition lit (s : string) : jsstring :=
  map N_of_ascii (list_ascii_of_string s).

(** Code units that [String.prototype.trim] strips: ECMAScript WhiteSpace
    and LineTerminator. *)
Definition is_js_space (c : N) : bool :=
  (((9 <=? c) && (c <=? 13)) || (c =? 32) || (c =? 160) || (c =? 5760)
   || ((8192 <=? c) && (c <=? 8202)) || (c =? 8232) || (c =? 8233)
   || (c =? 8239) || (c =? 8287) || (c =? 12288) || (c =? 65279))%N.

Fixpoint trim_start (s : jsstring) : jsstring :=
  match s with
  | [] => []
  | c :: r => if is_js_space c then trim_start r else s
  end.

Definition trim (s : jsstring) : jsstring :=
  rev (trim_start (rev (trim_start s))).

(** The values [JSON.parse] can return, with two limits: numerals are
    integers, and objects occur at the top level of the document only
    ([recipeData] below).  Responses that put an object under [steps] or
    among its elements are therefore not values of this type; the module
    does read [length] and indices off an object-valued [steps] and turns
    an object step into text at line 99, and none of that is covered
    here.  Statements about what is rejected or displayed say which
    responses they speak of. *)
Inductive jsval :=
| JNull
| JBool (b : bool)
| JNum (n : Z)
| JStr (s : jsstring)
| JArr (l : list jsval).

(** What [JSON.parse(responseText)] evaluates to: a non-object value or an
    object with its members in document order. *)
Inductive recipeData :=
| RVal (v : jsval)
| RObj (members : list (jsstring * jsval)).

(** Whatever a [throw] or a rejected promise carries: an [Error] instance
    with its [message], or some other value. *)
Inductive thrown :=
| ErrorObj (message : jsstring)
| NotAnError.

(** The completion of lines 115-137 of [getRecipe]: the request rejects,
    [response.text.trim()] or [JSON.parse] throws, or a value is parsed. *)
Inductive outcome :=
| Thrown (e : thrown)
| Parsed (d : recipeData).

(** ToBoolean. *)
Definition truthy (v : jsval) : bool :=
  match v with
  | JNull => false
  | JBool b => b
  | JNum n => negb (n =? 0)
  | JStr s => match s with [] => false | _ => true end
  | JArr _ => true
  end.

(** [===] on strings. *)
Fixpoint jsstring_eqb (a b : jsstring) : bool :=
  match a, b with
  | [], [] => true
  | x :: a', y :: b' => (x =? y)%N && jsstring_eqb a' b'
  | _, _ => false
  end.

(** Property lookup on a parsed object: for a duplicated key [JSON.parse]
    keeps the last occurrence.  [None] is [undefined]. *)
Fixpoint get_member (k : jsstring) (members : list (jsstring * jsval))
  : option jsval :=
  match members with
  | [] => None
  | (k', v) :: rest =>
      match get_member k rest with
      | Some w => Some w
      | None => if jsstring_eqb k k' then Some v else None
      end
  end.

(** [recipeData.steps]; on a primitive or an array the property is
    [undefined]. *)
Definition steps_of (d : recipeData) : option jsval :=
  match d with
  | RObj members => get_member (lit "steps") members
  | RVal _ => None
  end.

Definition truthy_data (d : recipeData) : bool :=
  match d with
  | RObj _ => true
  | RVal v => truthy v
  end.

(** The elements an array-like value exposes through [v[i]]: those of an
    array, the one-unit substrings of a string. *)
Definition items (v : jsval) : list jsval :=
  match v with
  | JArr l => l
  | JStr s => map (fun c => JStr [c]) s
  | _ => []
  end.

(** [v.length]; [None] is [undefined] (numbers and booleans). *)
Definition js_length (v : jsval) : option Z :=
  match v with
  | JArr _ | JStr _ => Some (Z.of_nat (List.length (items v)))
  | _ => None
  end.

(** [a[i]] for a number [i]: [undefined] out of range. *)
Definition index {A : Type} (a : list A) (i : Z) : option A :=
  if i <? 0 then None else nth_error a (Z.to_nat i).

(** ** The page, the window and the module state *)

(** The closure installed as [backButton.onclick] (lines 64-67). *)
Inductive handler :=
| TryAgain.

Inductive node :=
| Text (content : jsstring)
| P (textContent : jsstring)
| Button (textContent : jsstring) (onclick : handler).

(** The elements fetched at lines 9-19, with the attributes the module
    reads or writes.  [*_hidden] is membership of ['hidden'] in the
    element's [classList]. *)
Record dom := mkDom {
  inputView_hidden : bool;
  recipeView_hidden : bool;
  loadingSpinner_hidden : bool;
  errorMessageDiv_hidden : bool;
  errorMessageDiv_children : list node;
  dishInput_value : jsstring;
  recipeStepText_textContent : option jsval;
  prevStepBtn_disabled : bool;
  nextStepBtn_disabled : bool
}.

Record utterance := mkUtterance {
  text : option jsval;
  lang : jsstring
}.

Inductive console_entry :=
| Warn (msg : jsstring)
| LogError (msg : jsstring) (e : thrown).

(** [speechSynthesis] is [None] when ['speechSynthesis' in window] is
    false, otherwise the utterances queued or being spoken. *)
Record window := mkWindow {
  speechSynthesis : option (list utterance);
  console : list console_entry
}.

(** [requests] logs the [contents] of every [generateContent] call,
    [pending] counts those not yet settled, [listening] tells whether
    [initialize] registered the event handlers. *)
Record state := mkState {
  recipeSteps : list jsval;
  currentStepIndex : Z;
  page : dom;
  win : window;
  requests : list jsstring;
  pending : nat;
  listening : bool
}.

Definition with_page (f : dom -> dom) (s : state) : state :=
  mkState (recipeSteps s) (currentStepIndex s) (f (page s)) (win s)
          (requests s) (pending s) (listening s).

Definition with_win (f : window -> window) (s : state) : state :=
  mkState (recipeSteps s) (currentStepIndex s) (page s) (f (win s))
          (requests s) (pending s) (listening s).

Definition set_recipeSteps (l : list jsval) (s : state) : state :=
  mkState l (currentStepIndex s) (page s) (win s)
          (requests s) (pending s) (listening s).

Definition set_currentStepIndex (i : Z) (s : state) : state :=
  mkState (recipeSteps s) i (page s) (win s)
          (requests s) (pending s) (listening s).

(** ** View controller *)

Definition set_inputView_hidden (b : bool) (d : dom) : dom :=
  mkDom b (recipeView_hidden d) (loadingSpinner_hidden d)
        (errorMessageDiv_hidden d) (errorMessageDiv_children d)
        (dishInput_value d) (recipeStepText_textContent d)
        (prevStepBtn_disabled d) (nextStepBtn_disabled d).

Definition set_recipeView_hidden (b : bool) (d : dom) : dom :=
  mkDom (inputView_hidden d) b (loadingSpinner_hidden d)
        (errorMessageDiv_hidden d) (errorMessageDiv_children d)
        (dishInput_value d) (recipeStepText_textContent d)
        (prevStepBtn_disabled d) (nextStepBtn_disabled d).

Definition set_loadingSpinner_hidden (b : bool) (d : dom) : dom :=
  mkDom (inputView_hidden d) (recipeView_hidden d) b
        (errorMessageDiv_hidden d) (errorMessageDiv_children d)
        (dishInput_value d) (recipeStepText_textContent d)
        (prevStepBtn_disabled d) (nextStepBtn_disabled d).

Definition set_errorMessageDiv_hidden (b : bool) (d : dom) : dom :=
  mkDom (inputView_hidden d) (recipeView_hidden d) (loadingSpinner_hidden d)
        b (errorMessageDiv_children d)
        (dishInput_value d) (recipeStepText_textContent d)
        (prevStepBtn_disabled d) (nextStepBtn_disabled d).

Definition set_errorMessageDiv_children (c : list node) (d : dom) : dom :=
  mkDom (inputView_hidden d) (recipeView_hidden d) (loadingSpinner_hidden d)
        (errorMessageDiv_hidden d) c
        (dishInput_value d) (recipeStepText_textContent d)
        (prevStepBtn_disabled d) (nextStepBtn_disabled d).

Definition set_dishInput_value (v : jsstring) (d : dom) : dom :=
  mkDom (inputView_hidden d) (recipeView_hidden d) (loadingSpinner_hidden d)
        (errorMessageDiv_hidden d) (errorMessageDiv_children d)
        v (recipeStepText_textContent d)
        (prevStepBtn_disabled d) (nextStepBtn_disabled d).

Definition set_recipeStepText_textContent (t : option jsval) (d : dom) : dom :=
  mkDom (inputView_hidden d) (recipeView_hidden d) (loadingSpinner_hidden d)
        (errorMessageDiv_hidden d) (errorMessageDiv_children d)
        (dishInput_value d) t
        (prevStepBtn_disabled d) (nextStepBtn_disabled d).

Definition set_prevStepBtn_disabled (b : bool) (d : dom) : dom :=
  mkDom (inputView_hidden d) (recipeView_hidden d) (loadingSpinner_hidden d)
        (errorMessageDiv_hidden d) (errorMessageDiv_children d)
        (dishInput_value d) (recipeStepText_textContent d)
        b (nextStepBtn_disabled d).

Definition set_nextStepBtn_disabled (b : bool) (d : dom) : dom :=
  mkDom (inputView_hidden d) (recipeView_hidden d) (loadingSpinner_hidden d)
        (errorMessageDiv_hidden d) (errorMessageDiv_children d)
        (dishInput_value d) (recipeStepText_textContent d)
        (prevStepBtn_disabled d) b.

Inductive viewName := input | recipe | loading | error.

(** [showView] (lines 32-52): [classList.add('hidden')] on the four views,
    then [classList.remove('hidden')] on the one named. *)
Definition showView (viewName : viewName) (d : dom) : dom :=
  let d := set_inputView_hidden true d in
  let d := set_recipeView_hidden true d in
  let d := set_loadingSpinner_hidden true d in
  let d := set_errorMessageDiv_hidden true d in
  match viewName with
  | input => set_inputView_hidden false d
  | recipe => set_recipeView_hidden false d
  | loading => set_loadingSpinner_hidden false d
  | error => set_errorMessageDiv_hidden false d
  end.

(** [showError] (lines 58-74). *)
Definition showError (message : jsstring) (d : dom) : dom :=
  let d := set_errorMessageDiv_children
             [Text (lit "Oops! Something went wrong. " ++ message
                    ++ lit ". Please try again.")] d in
  let d := showView error d in
  let backButton := Button (lit "Try Again") TryAgain in
  let d := set_errorMessageDiv_children [] d in
  let errorText := P (lit "Oops! Something went wrong: " ++ message
                      ++ lit ".") in
  let d := set_errorMessageDiv_children
             (errorMessageDiv_children d ++ [errorText]) d in
  set_errorMessageDiv_children (errorMessageDiv_children d ++ [backButton]) d.

(** The body of [backButton.onclick] (lines 64-67). *)
Definition run_handler (h : handler) (d : dom) : dom :=
  match h with
  | TryAgain =>
      let d := showView input d in
      set_errorMessageDiv_children [] d
  end.

(** A click on a child of [errorMessageDiv]: only a button has a handler. *)
Definition click (n : node) (d : dom) : dom :=
  match n with
  | Button _ h => run_handler h d
  | _ => d
  end.

(** Visibility: an element is shown when its class list lacks ['hidden']. *)
Definition visible (v : viewName) (d : dom) : bool :=
  negb match v with
       | input => inputView_hidden d
       | recipe => recipeView_hidden d
       | loading => loadingSpinner_hidden d
       | error => errorMessageDiv_hidden d
       end.

(** ** Speech *)

(** [speak] (lines 81-90). *)
Definition speak (text : option jsval) (w : window) : window :=
  match speechSynthesis w with
  | Some queue =>
      let queue := @nil utterance in               (* speechSynthesis.cancel() *)
      let utterance := mkUtterance text (lit "en-US") in
      mkWindow (Some (queue ++ [utterance])) (console w)
  | None =>
      mkWindow (speechSynthesis w)
               (console w
                ++ [Warn (lit "Speech Synthesis not supported in this browser.")])
  end.

(** ** Recipe session *)

(** [updateRecipeStepUI] (lines 95-106). *)
Definition updateRecipeStepUI (s : state) : state :=
  if Z.of_nat (List.length (recipeSteps s)) =? 0 then s
  else
    let currentStep := index (recipeSteps s) (currentStepIndex s) in
    let s := with_page (set_recipeStepText_textContent currentStep) s in
    let s := with_page (set_prevStepBtn_disabled (currentStepIndex s =? 0)) s in
    let s := with_page
               (set_nextStepBtn_disabled
                  (currentStepIndex s
                   =? Z.of_nat (List.length (recipeSteps s)) - 1)) s in
    with_win (speak currentStep) s.

(** The prompt built at line 117. *)
Definition prompt (dishName : jsstring) : jsstring :=
  lit "Generate a simple, step-by-step recipe for " ++ dishName
  ++ lit ". Provide only the instructions.".

(** [getRecipe] up to its [await] (lines 113-115): the loading view is
    shown and the request is issued. *)
Definition getRecipe_start (dishName : jsstring) (s : state) : state :=
  let s := with_page (showView loading) s in
  mkState (recipeSteps s) (currentStepIndex s) (page s) (win s)
          (requests s ++ [prompt dishName]) (S (pending s)) (listening s).

(** The [try] block after the parse (lines 139-146): either the state
    after the accepting branch or the error thrown by the other one. *)
Definition getRecipe_try (recipeData : recipeData) (s : state)
  : state + thrown :=
  let reject :=
    inr (ErrorObj (lit "Could not find a recipe for that dish.")) in
  if truthy_data recipeData then
    match steps_of recipeData with
    | Some steps =>
        if truthy steps then
          match js_length steps with
          | Some n =>
              if 0 <? n then
                let s := set_recipeSteps (items steps) s in
                let s := set_currentStepIndex 0 s in
                let s := updateRecipeStepUI s in
                inl (with_page (showView recipe) s)
              else reject
          | None => reject
          end
        else reject
    | None => reject
    end
  else reject.

(** The [catch] block (lines 148-151). *)
Definition getRecipe_catch (e : thrown) (s : state) : state :=
  let s := with_win
             (fun w => mkWindow (speechSynthesis w)
                         (console w ++ [LogError (lit "Error fetching recipe:") e]))
             s in
  with_page
    (showError match e with
               | ErrorObj message => message
               | NotAnError => lit "An unknown error occurred"
               end) s.

(** [getRecipe] from the settling of the request on (lines 136-151). *)
Definition getRecipe_resume (o : outcome) (s : state) : state :=
  match o with
  | Thrown e => getRecipe_catch e s
  | Parsed recipeData =>
      match getRecipe_try recipeData s with
      | inl s' => s'
      | inr e => getRecipe_catch e s
      end
  end.

(** ** Event handlers *)

(** [handleFormSubmit] (lines 157-163); [event.preventDefault()] touches
    the event only. *)
Definition handleFormSubmit (s : state) : state :=
  let dishName := trim (dishInput_value (page s)) in
  match dishName with
  | [] => s
  | _ :: _ => getRecipe_start dishName s
  end.

(** [handleNextStep] (lines 165-170). *)
Definition handleNextStep (s : state) : state :=
  if currentStepIndex s <? Z.of_nat (List.length (recipeSteps s)) - 1 then
    let s := set_currentStepIndex (currentStepIndex s + 1) s in
    updateRecipeStepUI s
  else s.

(** [handlePrevStep] (lines 172-177). *)
Definition handlePrevStep (s : state) : state :=
  if 0 <? currentStepIndex s then
    let s := set_currentStepIndex (currentStepIndex s - 1) s in
    updateRecipeStepUI s
  else s.

(** [handleRepeatStep] (lines 179-181). *)
Definition handleRepeatStep (s : state) : state :=
  updateRecipeStepUI s.

(** How a handler ends: it returns, or an exception escapes it and the
    statements after the throwing one are skipped. *)
Inductive completion :=
| Normal (s : state)
| Uncaught (e : thrown) (s : state).

Definition state_of (c : completion) : state :=
  match c with
  | Normal s | Uncaught _ s => s
  end.

(** [handleStartOver] (lines 183-189).  Line 187 reads the global
    [speechSynthesis] without the test [speak] makes: where the browser
    lacks it the read throws a ReferenceError and line 188 is not reached. *)
Definition handleStartOver (s : state) : completion :=
  let s := set_recipeSteps [] s in
  let s := set_currentStepIndex 0 s in
  let s := with_page (set_dishInput_value []) s in
  match speechSynthesis (win s) with
  | Some _ =>
      let s := with_win (fun w => mkWindow (Some []) (console w)) s in
      Normal (with_page (showView input) s)
  | None =>
      Uncaught (ErrorObj (lit "speechSynthesis is not defined")) s
  end.

(** ** Initialization and the event loop *)

(** The module state once lines 9-24 have run on a page [d] in a window
    [w]. *)
Definition loaded (d : dom) (w : window) : state :=
  mkState [] 0 d w [] 0%nat false.

(** [initialize] (lines 194-208); [API_KEY] is [process.env.API_KEY],
    [None] when undefined. *)
Definition initialize (API_KEY : option jsstring) (s : state) : state :=
  match API_KEY with
  | None | Some [] =>
      with_page (showError (lit "API_KEY is not configured.")) s
  | Some (_ :: _) =>
      let s := mkState (recipeSteps s) (currentStepIndex s) (page s) (win s)
                       (requests s) (pending s) true in
      with_page (showView input) s
  end.

(** What can happen after start-up: the user edits the dish field, an
    event reaches one of the registered handlers, a child of the error
    box is clicked, or a pending request settles.  The speech engine's
    own progress is not among the events: an utterance that has been
    spoken leaves the browser's queue without any code of the module
    running.  [speechSynthesis] in a state is thus what the calls of
    [speak] and [cancel] have queued, an upper bound of what is still to
    be spoken. *)
Inductive event :=
| EditDish (value : jsstring)
| SubmitForm
| ClickNext
| ClickPrev
| ClickRepeat
| ClickStartOver
| ClickErrorChild (i : nat)
| Settle (o : outcome).

Definition step (ev : event) (s : state) : state :=
  match ev with
  | EditDish value => with_page (set_dishInput_value value) s
  | SubmitForm => if listening s then handleFormSubmit s else s
  | ClickNext => if listening s then handleNextStep s else s
  | ClickPrev => if listening s then handlePrevStep s else s
  | ClickRepeat => if listening s then handleRepeatStep s else s
  | ClickStartOver => if listening s then state_of (handleStartOver s) else s
  | ClickErrorChild i =>
      match nth_error (errorMessageDiv_children (page s)) i with
      | Some n => with_page (click n) s
      | None => s
      end
  | Settle o =>
      match pending s with
      | O => s
      | S n =>
          getRecipe_resume o
            (mkState (recipeSteps s) (currentStepIndex s) (page s) (win s)
                     (requests s) n (listening s))
      end
  end.

Fixpoint run (evs : list event) (s : state) : state :=
  match evs with
  | [] => s
  | ev :: rest => run rest (step ev s)
  end.

(** The states the running program can be in. *)
Definition reachable (s : state) : Prop :=
  exists d w API_KEY evs, s = run evs (initialize API_KEY (loaded d w)).

(** ** Properties named by the specification *)

(** The session invariant of the data model. *)
Definition index_invariant (s : state) : Prop :=
  match recipeSteps s with
  | [] => currentStepIndex s = 0
  | _ :: _ =>
      0 <= currentStepIndex s <= Z.of_nat (List.length (recipeSteps s)) - 1
  end.

(** Exactly the view [v] is visible. *)
Definition only_visible (v : viewName) (d : dom) : Prop :=
  forall v', visible v' d = true <-> v' = v.

(** The response the request asks for (lines 118-133): an object whose
    [steps] member is an array of strings. *)
Definition is_string (v : jsval) : bool :=
  match v with JStr _ => true | _ => false end.

Definition structurally_valid (o : outcome) : bool :=
  match o with
  | Parsed (RObj members) =>
      match get_member (lit "steps") members with
      | Some (JArr l) => forallb is_string l
      | _ => false
      end
  | _ => false
  end.

(** The [steps] array of a structurally valid response. *)
Definition steps_array (o : outcome) : list jsval :=
  match o with
  | Parsed d => match steps_of d with Some v => items v | None => [] end
  | Thrown _ => []
  end.

(** The condition of line 139. *)
Definition accepts (d : recipeData) : bool :=
  truthy_data d &&
  match steps_of d with
  | Some steps =>
      truthy steps &&
      match js_length steps with Some n => 0 <? n | None => false end
  | None => false
  end.

(** A response with no steps to load: nothing was parsed, [steps] is
    missing or [null], or it is the empty array. *)
Definition no_steps (o : outcome) : bool :=
  match o with
  | Thrown _ => true
  | Parsed d =>
      match steps_of d with
      | None | Some JNull | Some (JArr []) => true
      | _ => false
      end
  end.

(** A response whose [steps] the module can walk through: a non-empty
    array or a non-empty string. *)
Definition usable_steps (o : outcome) : bool :=
  match o with
  | Parsed (RObj members) =>
      match get_member (lit "steps") members with
      | Some (JArr (_ :: _)) | Some (JStr (_ :: _)) => true
      | _ => false
      end
  | _ => false
  end.

(** The step display agrees with the session: when steps are loaded the
    text shows the current step and the two buttons are disabled exactly
    at the ends. *)
Definition widgets_in_sync (s : state) : Prop :=
  recipeSteps s <> [] ->
  recipeStepText_textContent (page s)
  = index (recipeSteps s) (currentStepIndex s) /\
  prevStepBtn_disabled (page s) = (currentStepIndex s =? 0) /\
  nextStepBtn_disabled (page s)
  = (currentStepIndex s =? Z.of_nat (List.length (recipeSteps s)) - 1).

(** ** Further notions used in the properties of the whole program *)

(** [!process.env.API_KEY]: the key is undefined or the empty string. *)
Definition missing_key (API_KEY : option jsstring) : bool :=
  match API_KEY with
  | None | Some [] => true
  | Some (_ :: _) => false
  end.

(** The utterance queued for the current step. *)
Definition current_utterance (s : state) : utterance :=
  mkUtterance (index (recipeSteps s) (currentStepIndex s)) (lit "en-US").

(** When steps are loaded and the browser can speak, the speech queue
    holds the utterance of the current step and nothing else. *)
Definition speech_in_sync (s : state) : Prop :=
  recipeSteps s <> [] ->
  forall queue, speechSynthesis (win s) = Some queue ->
                queue = [current_utterance s].

(** What [showError] leaves in the error box. *)
Definition error_box (message : jsstring) : list node :=
  [P (lit "Oops! Something went wrong: " ++ message ++ lit ".");
   Button (lit "Try Again") TryAgain].

(** A dish name as [handleFormSubmit] passes it on: non-empty, and
    [trim] has nothing left to strip. *)
Definition trimmed_name (dishName : jsstring) : Prop :=
  dishName <> [] /\ trim dishName = dishName.

(** What holds of the views at every moment: one of them is visible, the
    loading view only with a request in flight, and (where the browser
    can speak) the recipe view only with steps loaded. *)
Definition views_inv (s : state) : Prop :=
  (exists v, only_visible v (page s)) /\
  (visible loading (page s) = true -> pending s <> 0%nat) /\
  (speechSynthesis (win s) <> None ->
   visible recipe (page s) = true -> recipeSteps s <> []).

(** The program without a key in a window [w]: no handler registered,
    nothing requested, loaded, spoken or logged, and the error or the
    input view shown. *)
Definition inert (w : window) (s : state) : Prop :=
  listening s = false /\ requests s = [] /\ pending s = 0%nat /\
  recipeSteps s = [] /\ currentStepIndex s = 0 /\ win s = w /\
  (only_visible error (page s) \/ only_visible input (page s)).

(** Responses that line 139 turns down whatever else they hold: nothing
    was parsed; the parsed value is not an object; or its [steps] is
    missing, [null], a boolean, a number, the empty string or the empty
    array. *)
Definition steps_rejected (o : outcome) : bool :=
  match o with
  | Thrown _ => true
  | Parsed (RVal _) => true
  | Parsed (RObj members) =>
      match get_member (lit "steps") members with
      | None | Some JNull | Some (JBool _) | Some (JNum _)
      | Some (JStr []) | Some (JArr []) => true
      | Some (JStr (_ :: _)) | Some (JArr (_ :: _)) => false
      end
  end.

(** What the service is asked for (lines 118-133), or a failure: the
    request throws, or the response is an object whose [steps], when
    present, is an array of strings. *)
Definition expected_response (o : outcome) : bool :=
  match o with
  | Thrown _ => true
  | Parsed (RVal _) => false
  | Parsed (RObj members) =>
      match get_member (lit "steps") members with
      | None => true
      | Some (JArr l) => forallb is_string l
      | Some _ => false
      end
  end.

(** A run in which every response is as expected. *)
Definition expected_event (ev : event) : bool :=
  match ev with
  | Settle o => expected_response o
  | _ => true
  end.

(** ** Sample pages, browsers and responses *)

Definition page0 : dom :=
  mkDom false true true true [] [] None false false.

Definition browser : window := mkWindow (Some []) [].

(** A browser without the Web Speech API. *)
Definition silent_browser : window := mkWindow None [].

Definition omelette : outcome :=
  Parsed (RObj [(lit "steps",
                 JArr [JStr (lit "Crack eggs"); JStr (lit "Whisk");
                       JStr (lit "Cook")])]).

Definition no_recipe : outcome := Parsed (RObj [(lit "steps", JArr [])]).

Definition steps_as_text : outcome :=
  Parsed (RObj [(lit "steps", JStr (lit "abc"))]).

Definition started (w : window) : state :=
  initialize (Some (lit "key")) (loaded page0 w).

Definition cooking (w : window) : state :=
  run [EditDish (lit "omelette"); SubmitForm; Settle omelette] (started w).

Definition failed : state :=
  run [EditDish (lit "omelette"); SubmitForm; Settle no_recipe]
      (started browser).

(** * Proofs *)

(** Closes a goal about sample states by running the program. *)
Ltac evaluate := vm_compute; repeat split; congruence.

(** ** Frame lemmas: what each function leaves alone *)

Section Frames.
Variable s : state.

Lemma updateRecipeStepUI_recipeSteps :
  recipeSteps (updateRecipeStepUI s) = recipeSteps s.
Proof. unfold updateRecipeStepUI. destruct (_ =? 0); reflexivity. Qed.

Lemma updateRecipeStepUI_currentStepIndex :
  currentStepIndex (updateRecipeStepUI s) = currentStepIndex s.
Proof. unfold updateRecipeStepUI. destruct (_ =? 0); reflexivity. Qed.

Lemma updateRecipeStepUI_views v :
  visible v (page (updateRecipeStepUI s)) = visible v (page s).
Proof.
  unfold updateRecipeStepUI. destruct (_ =? 0); [reflexivity|].
  destruct v; reflexivity.
Qed.

Lemma getRecipe_catch_recipeSteps e :
  recipeSteps (getRecipe_catch e s) = recipeSteps s.
Proof. reflexivity. Qed.

Lemma getRecipe_catch_currentStepIndex e :
  currentStepIndex (getRecipe_catch e s) = currentStepIndex s.
Proof. reflexivity. Qed.
End Frames.

Lemma getRecipe_try_accepts d s :
  accepts d = true ->
  exists steps,
    steps_of d = Some steps /\ items steps <> [] /\
    getRecipe_try d s =
      inl (with_page (showView recipe)
             (updateRecipeStepUI
                (set_currentStepIndex 0 (set_recipeSteps (items steps) s)))).
Proof.
  unfold accepts, getRecipe_try. intros H.
  destruct (truthy_data d); [|discriminate]. simpl in H.
  destruct (steps_of d) as [steps|]; [|discriminate].
  exists steps. destruct (truthy steps); [|discriminate]. simpl in H.
  destruct (js_length steps) as [n|] eqn:L; [|discriminate].
  rewrite H. split; [reflexivity|]. split; [|reflexivity].
  apply Z.ltb_lt in H. intros E.
  destruct steps; try discriminate L; simpl in L, E;
    injection L as L; subst n; rewrite E in H; simpl in H; lia.
Qed.

Lemma getRecipe_try_rejects d s :
  accepts d = false ->
  getRecipe_try d s =
    inr (ErrorObj (lit "Could not find a recipe for that dish.")).
Proof.
  unfold accepts, getRecipe_try. intros H.
  destruct (truthy_data d); [|reflexivity]. simpl in H.
  destruct (steps_of d) as [steps|]; [|reflexivity].
  destruct (truthy steps); [|reflexivity]. simpl in H.
  destruct (js_length steps) as [n|]; [|reflexivity].
  rewrite H. reflexivity.
Qed.

(** ** The view controller *)

Lemma showView_only_visible v d : only_visible v (showView v d).
Proof.
  intros v'. destruct v, v'; simpl; split; intros H;
    first [reflexivity | discriminate].
Qed.

(** C6. For each of the four view names [showView] leaves exactly that
    view visible and the three others hidden, and a second call with the
    same name changes nothing. *)
Theorem showView_exclusive_idempotent :
  forall (v : viewName) (d : dom),
    (forall v', visible v' (showView v d) = true <-> v' = v) /\
    showView v (showView v d) = showView v d.
Proof.
  intros v d. split.
  - apply showView_only_visible.
  - destruct v; reflexivity.
Qed.

(** ** The step index invariant *)

Lemma index_invariant_intro l i s :
  recipeSteps s = l -> currentStepIndex s = i ->
  (l = [] -> i = 0) ->
  (l <> [] -> 0 <= i <= Z.of_nat (List.length l) - 1) ->
  index_invariant s.
Proof.
  unfold index_invariant. intros El Ei H0 H1. rewrite El, Ei.
  destruct l; [auto | apply H1; discriminate].
Qed.

Lemma index_invariant_elim s :
  index_invariant s ->
  0 <= currentStepIndex s /\
  (recipeSteps s = [] -> currentStepIndex s = 0) /\
  (recipeSteps s <> [] ->
   currentStepIndex s <= Z.of_nat (List.length (recipeSteps s)) - 1).
Proof.
  unfold index_invariant. destruct (recipeSteps s) eqn:E; intros H.
  - repeat split; try lia; congruence.
  - repeat split; try lia. discriminate.
Qed.

Lemma index_invariant_session s s' :
  recipeSteps s' = recipeSteps s ->
  currentStepIndex s' = currentStepIndex s ->
  index_invariant s -> index_invariant s'.
Proof. unfold index_invariant. intros -> ->. exact id. Qed.

Lemma handleNextStep_invariant s :
  index_invariant s -> index_invariant (handleNextStep s).
Proof.
  intros H. unfold handleNextStep.
  destruct (_ <? _) eqn:E; [|exact H].
  apply Z.ltb_lt in E. apply index_invariant_elim in H as (H0 & _ & _).
  eapply index_invariant_intro.
  - rewrite updateRecipeStepUI_recipeSteps. reflexivity.
  - rewrite updateRecipeStepUI_currentStepIndex. reflexivity.
  - simpl. intros E'. rewrite E' in E. simpl in E. lia.
  - simpl. lia.
Qed.

Lemma handlePrevStep_invariant s :
  index_invariant s -> index_invariant (handlePrevStep s).
Proof.
  intros H. unfold handlePrevStep.
  destruct (_ <? _) eqn:E; [|exact H].
  apply Z.ltb_lt in E. apply index_invariant_elim in H as (H0 & H1 & H2).
  eapply index_invariant_intro.
  - rewrite updateRecipeStepUI_recipeSteps. reflexivity.
  - rewrite updateRecipeStepUI_currentStepIndex. reflexivity.
  - simpl. intros E'. apply H1 in E'. lia.
  - simpl. intros N. apply H2 in N. lia.
Qed.

Lemma getRecipe_resume_invariant o s :
  index_invariant s -> index_invariant (getRecipe_resume o s).
Proof.
  intros H. destruct o as [e|d]; simpl.
  - exact H.
  - destruct (accepts d) eqn:A.
    + destruct (getRecipe_try_accepts d s A) as (steps & _ & N & ->).
      eapply index_invariant_intro.
      * simpl. rewrite updateRecipeStepUI_recipeSteps. reflexivity.
      * simpl. rewrite updateRecipeStepUI_currentStepIndex. reflexivity.
      * reflexivity.
      * simpl. destruct (items steps); [congruence|]. simpl List.length. lia.
    + rewrite (getRecipe_try_rejects d s A). exact H.
Qed.

Lemma handleStartOver_invariant s :
  index_invariant (state_of (handleStartOver s)).
Proof.
  unfold handleStartOver. simpl.
  destruct (speechSynthesis (win s)); reflexivity.
Qed.

Lemma step_invariant ev s :
  index_invariant s -> index_invariant (step ev s).
Proof.
  intros H. destruct ev; simpl.
  - exact H.
  - destruct (listening s); [|exact H]. unfold handleFormSubmit.
    destruct (trim _); exact H.
  - destruct (listening s); [apply handleNextStep_invariant|]; exact H.
  - destruct (listening s); [apply handlePrevStep_invariant|]; exact H.
  - destruct (listening s); [|exact H].
    eapply index_invariant_session; [| |exact H].
    + apply updateRecipeStepUI_recipeSteps.
    + apply updateRecipeStepUI_currentStepIndex.
  - destruct (listening s); [apply handleStartOver_invariant|exact H].
  - destruct (nth_error _ i); exact H.
  - destruct (pending s); [exact H|].
    apply getRecipe_resume_invariant. exact H.
Qed.

Lemma run_invariant evs : forall s,
  index_invariant s -> index_invariant (run evs s).
Proof.
  induction evs as [|ev rest IH]; intros s H; simpl.
  - exact H.
  - apply IH, step_invariant, H.
Qed.

Lemma initialize_invariant API_KEY d w :
  index_invariant (initialize API_KEY (loaded d w)).
Proof. destruct API_KEY as [[|c k]|]; reflexivity. Qed.

(** C1. After any sequence of events following start-up (submissions and
    the settling of their requests, next, previous, repeat, start over,
    edits of the dish field, clicks in the error box) the index is [0]
    when no steps are loaded and lies in [[0, length - 1]] otherwise;
    [handleNextStep] at the last index and [handlePrevStep] at index [0]
    return the state they were given. *)
Theorem step_index_invariant :
  forall (d : dom) (w : window) (API_KEY : option jsstring)
         (evs : list event),
    index_invariant (run evs (initialize API_KEY (loaded d w))) /\
    (forall s,
        currentStepIndex s = Z.of_nat (List.length (recipeSteps s)) - 1 ->
        handleNextStep s = s) /\
    (forall s, currentStepIndex s = 0 -> handlePrevStep s = s).
Proof.
  intros d w API_KEY evs. split; [|split].
  - apply run_invariant, initialize_invariant.
  - intros s E. unfold handleNextStep. rewrite E, Z.ltb_irrefl. reflexivity.
  - intros s E. unfold handlePrevStep. rewrite E. reflexivity.
Qed.


Lemma step_index_invariant_witness :
  index_invariant
    (run [EditDish (lit "omelette"); SubmitForm; Settle omelette;
          ClickNext; ClickNext]
         (initialize (Some (lit "key")) (loaded page0 browser))) /\
  handleNextStep (run [ClickNext; ClickNext] (cooking browser))
  = run [ClickNext; ClickNext] (cooking browser) /\
  handlePrevStep (cooking browser) = cooking browser.
Proof.
  destruct (step_index_invariant page0 browser (Some (lit "key"))
              [EditDish (lit "omelette"); SubmitForm; Settle omelette;
               ClickNext; ClickNext]) as (Hinv & Hnext & Hprev).
  split; [exact Hinv|]. split.
  - apply Hnext. vm_compute. reflexivity.
  - apply Hprev. vm_compute. reflexivity.
Defined.

(** ** Fetching a recipe *)

Lemma showError_visible message d v :
  visible v (showError message d) = visible v (showView error d).
Proof. destruct v; reflexivity. Qed.

Lemma showError_only_visible message d :
  only_visible error (showError message d).
Proof.
  intros v. rewrite showError_visible. apply showView_only_visible.
Qed.

Lemma only_visible_xor v d :
  only_visible v d -> v = recipe \/ v = error ->
  xorb (visible recipe d) (visible error d) = true /\
  visible input d = false /\ visible loading d = false.
Proof.
  intros H Hv.
  assert (F : forall v', v' <> v -> visible v' d = false).
  { intros v' N. destruct (visible v' d) eqn:E; [|reflexivity].
    apply H in E. contradiction. }
  destruct Hv as [-> | ->].
  - rewrite (proj2 (H recipe) eq_refl), !F by discriminate. auto.
  - rewrite (proj2 (H error) eq_refl), !F by discriminate. auto.
Qed.

(** Line 139 accepts a response exactly when its [steps] is a non-empty
    array or a non-empty string. *)
Lemma accepts_usable d : accepts d = usable_steps (Parsed d).
Proof.
  destruct d as [v|members]; unfold accepts, usable_steps, steps_of.
  - apply andb_false_r.
  - destruct (get_member (lit "steps") members) as [[|b|n|[|c r]|[|x l]]|];
      try reflexivity; simpl.
    + apply andb_false_r.
    + apply andb_false_r.
Qed.

Lemma getRecipe_resume_usable o s :
  usable_steps o = true ->
  getRecipe_resume o s =
    with_page (showView recipe)
      (updateRecipeStepUI
         (set_currentStepIndex 0 (set_recipeSteps (steps_array o) s))) /\
  steps_array o <> [].
Proof.
  destruct o as [e|d]; [discriminate|]. intros U.
  rewrite <- accepts_usable in U.
  destruct (getRecipe_try_accepts d s U) as (steps & E & N & T).
  simpl. rewrite T, E. split; [reflexivity | exact N].
Qed.

Lemma getRecipe_resume_unusable o s :
  usable_steps o = false ->
  exists e,
    getRecipe_resume o s = getRecipe_catch e s /\
    (forall d, o = Parsed d ->
               e = ErrorObj (lit "Could not find a recipe for that dish.")).
Proof.
  destruct o as [e|d]; intros U.
  - exists e. split; [reflexivity | discriminate].
  - rewrite <- accepts_usable in U. eexists. split.
    + simpl. rewrite (getRecipe_try_rejects d s U). reflexivity.
    + reflexivity.
Qed.

Lemma structurally_valid_usable o :
  structurally_valid o = true -> steps_array o <> [] -> usable_steps o = true.
Proof.
  destruct o as [e|[v|members]]; try discriminate. simpl.
  destruct (get_member (lit "steps") members) as [[|b|n|t|[|x l]]|];
    try discriminate; simpl; congruence.
Qed.

Lemma no_steps_unusable o : no_steps o = true -> usable_steps o = false.
Proof.
  destruct o as [e|[v|members]]; try reflexivity. simpl.
  destruct (get_member (lit "steps") members) as [[|b|n|[|c t]|[|x l]]|];
    try discriminate; reflexivity.
Qed.

Lemma getRecipe_resume_one_view o s :
  (usable_steps o = true ->
   only_visible recipe (page (getRecipe_resume o s))) /\
  (usable_steps o = false ->
   only_visible error (page (getRecipe_resume o s))).
Proof.
  split; intros U.
  - destruct (getRecipe_resume_usable o s U) as (-> & _).
    apply showView_only_visible.
  - destruct (getRecipe_resume_unusable o s U) as (e & -> & _).
    apply showError_only_visible.
Qed.

(** C2. Submitting a dish name that is non-empty once trimmed shows the
    loading view alone and issues the request; when the request settles,
    whatever happened in between, exactly one of the recipe view and the
    error view is visible and the two other views are hidden: the recipe
    view for a structurally valid response with a non-empty [steps], the
    error view for a thrown error, a parse failure or a missing or empty
    [steps]. *)
Theorem getRecipe_loading_then_recipe_or_error :
  forall (s : state),
    trim (dishInput_value (page s)) <> [] ->
    let dishName := trim (dishInput_value (page s)) in
    handleFormSubmit s = getRecipe_start dishName s /\
    only_visible loading (page (handleFormSubmit s)) /\
    requests (handleFormSubmit s) = requests s ++ [prompt dishName] /\
    forall (o : outcome) (s' : state),
      let r := getRecipe_resume o s' in
      (only_visible recipe (page r) \/ only_visible error (page r)) /\
      xorb (visible recipe (page r)) (visible error (page r)) = true /\
      visible input (page r) = false /\ visible loading (page r) = false /\
      (structurally_valid o = true -> steps_array o <> [] ->
       only_visible recipe (page r)) /\
      (no_steps o = true -> only_visible error (page r)).
Proof.
  intros s N dishName.
  assert (E : handleFormSubmit s = getRecipe_start dishName s).
  { subst dishName. unfold handleFormSubmit. revert N.
    destruct (trim _); intros N; [congruence | reflexivity]. }
  rewrite E. split; [reflexivity|]. split; [apply showView_only_visible|].
  split; [reflexivity|]. intros o s' r.
  destruct (getRecipe_resume_one_view o s') as (Hr & He). fold r in Hr, He.
  assert (D : only_visible recipe (page r) \/ only_visible error (page r)).
  { destruct (usable_steps o); [left|right]; auto. }
  split; [exact D|].
  assert (X : xorb (visible recipe (page r)) (visible error (page r)) = true
              /\ visible input (page r) = false
              /\ visible loading (page r) = false).
  { destruct D as [D|D]; eapply only_visible_xor; eauto. }
  destruct X as (X1 & X2 & X3). repeat (split; [assumption|]). split.
  - intros V NE. apply Hr, structurally_valid_usable; assumption.
  - intros NS. apply He, no_steps_unusable, NS.
Qed.

Lemma getRecipe_loading_then_recipe_or_error_witness :
  only_visible loading
    (page (handleFormSubmit (step (EditDish (lit " omelette ")) (started browser))))
  /\ only_visible recipe
       (page (getRecipe_resume omelette
                (handleFormSubmit
                   (step (EditDish (lit " omelette ")) (started browser)))))
  /\ only_visible error
       (page (getRecipe_resume no_recipe
                (handleFormSubmit
                   (step (EditDish (lit " omelette ")) (started browser))))).
Proof.
  assert (N : trim (dishInput_value
                      (page (step (EditDish (lit " omelette "))
                                  (started browser)))) <> [])
    by (vm_compute; discriminate).
  destruct (getRecipe_loading_then_recipe_or_error _ N) as (_ & L & _ & R).
  split; [exact L|]. split.
  - apply (R omelette); [reflexivity | vm_compute; discriminate].
  - apply (R no_recipe). reflexivity.
Defined.

(** C4. A response whose [steps] is an array of length at least one
    replaces the session's steps with that array, sets the index to [0]
    and leaves the recipe view as the one visible view. *)
Theorem load_nonempty_steps :
  forall (members : list (jsstring * jsval)) (l : list jsval) (s : state),
    get_member (lit "steps") members = Some (JArr l) ->
    (1 <= List.length l)%nat ->
    let r := getRecipe_resume (Parsed (RObj members)) s in
    recipeSteps r = l /\
    currentStepIndex r = 0 /\
    only_visible recipe (page r).
Proof.
  intros members l s G L r.
  assert (U : usable_steps (Parsed (RObj members)) = true).
  { simpl. rewrite G. destruct l; [simpl in L; lia | reflexivity]. }
  destruct (getRecipe_resume_usable _ s U) as (E & _).
  subst r. rewrite E. simpl steps_array. unfold steps_of. rewrite G.
  split; [|split].
  - simpl. apply updateRecipeStepUI_recipeSteps.
  - simpl. apply updateRecipeStepUI_currentStepIndex.
  - apply showView_only_visible.
Qed.

Lemma load_nonempty_steps_witness :
  recipeSteps (getRecipe_resume omelette failed)
  = [JStr (lit "Crack eggs"); JStr (lit "Whisk"); JStr (lit "Cook")] /\
  currentStepIndex (getRecipe_resume omelette failed) = 0 /\
  only_visible recipe (page (getRecipe_resume omelette failed)).
Proof.
  apply (load_nonempty_steps
           [(lit "steps",
             JArr [JStr (lit "Crack eggs"); JStr (lit "Whisk");
                   JStr (lit "Cook")])]).
  - reflexivity.
  - simpl. lia.
Defined.

(** ** Responses that are not loaded *)

(** A response that is not the requested object with an array of strings
    under [steps] can still be loaded: for [{"steps": "abc"}] line 139
    sees a truthy value of length 3, the session's steps are replaced by
    the characters of the string and the recipe view is shown. *)
Lemma steps_as_text_is_loaded :
  structurally_valid steps_as_text = false /\
  visible recipe (page (getRecipe_resume steps_as_text failed)) = true /\
  visible error (page (getRecipe_resume steps_as_text failed)) = false /\
  recipeSteps (getRecipe_resume steps_as_text failed)
  = [JStr (lit "a"); JStr (lit "b"); JStr (lit "c")] /\
  recipeSteps (getRecipe_resume steps_as_text failed) <> recipeSteps failed.
Proof. vm_compute. repeat split; discriminate. Qed.

Lemma steps_rejected_unusable o :
  steps_rejected o = true -> usable_steps o = false.
Proof.
  destruct o as [e|[v|members]]; try reflexivity. simpl.
  destruct (get_member (lit "steps") members) as [[|b|n|[|c t]|[|x l]]|];
    try discriminate; reflexivity.
Qed.

(** C3, amended. When the request throws or the response does not
    parse, when the parsed value is not an object, and when its [steps]
    is the empty array, the empty string, [null], a boolean, a number or
    missing, the error view is the one visible view, the recipe view is
    hidden, the session's steps and index are left as they were, and a
    parsed response ends in the very state that a request failing with
    the message "Could not find a recipe for that dish." ends in.
    Nothing is said of the other malformed responses. *)
Theorem load_without_steps_is_error :
  forall (o : outcome) (s : state),
    steps_rejected o = true ->
    let r := getRecipe_resume o s in
    only_visible error (page r) /\
    visible recipe (page r) = false /\
    recipeSteps r = recipeSteps s /\
    currentStepIndex r = currentStepIndex s /\
    (forall d, o = Parsed d ->
       r = getRecipe_resume
             (Thrown (ErrorObj (lit "Could not find a recipe for that dish.")))
             s).
Proof.
  intros o s Rj r. pose proof (steps_rejected_unusable o Rj) as U.
  destruct (getRecipe_resume_unusable o s U) as (e & E & M).
  subst r. rewrite E.
  assert (V : only_visible error (page (getRecipe_catch e s)))
    by apply showError_only_visible.
  split; [exact V|]. split.
  - destruct (visible recipe _) eqn:R; [|reflexivity].
    apply V in R. discriminate.
  - repeat split. intros d ->. rewrite (M d eq_refl). reflexivity.
Qed.

Lemma load_without_steps_is_error_witness :
  only_visible error (page (getRecipe_resume no_recipe (cooking browser))) /\
  visible recipe (page (getRecipe_resume no_recipe (cooking browser))) = false /\
  recipeSteps (getRecipe_resume no_recipe (cooking browser))
  = recipeSteps (cooking browser) /\
  currentStepIndex (getRecipe_resume no_recipe (cooking browser))
  = currentStepIndex (cooking browser).
Proof.
  destruct (load_without_steps_is_error no_recipe (cooking browser) eq_refl)
    as (A & B & C & D & _).
  split; [exact A|]. split; [exact B|]. split; [exact C | exact D].
Defined.

(** ** Recovery from an error *)

(** After a failed fetch for "omelette" the click on "Try Again" shows
    the input view and empties the error box, but the dish field still
    holds "omelette": lines 64-67 do not write [dishInput.value]. *)
Lemma try_again_keeps_dish :
  errorMessageDiv_children (page failed)
  = [P (lit "Oops! Something went wrong: Could not find a recipe for that dish..");
     Button (lit "Try Again") TryAgain] /\
  visible input (page (step (ClickErrorChild 1) failed)) = true /\
  errorMessageDiv_children (page (step (ClickErrorChild 1) failed)) = [] /\
  dishInput_value (page (step (ClickErrorChild 1) failed)) = lit "omelette" /\
  dishInput_value (page (step (ClickErrorChild 1) failed)) <> [].
Proof. vm_compute. repeat split; discriminate. Qed.

(** C5, amended. After any failed fetch (nothing parsed, or no non-empty
    [steps]) the error view is the one visible view and holds the message
    and a single "Try Again" button; clicking the button leaves the input
    view as the one visible view and empties the error box, while the dish
    field, the session's steps and the index keep their values. *)
Theorem error_recovery_returns_to_input :
  forall (o : outcome) (s : state),
    usable_steps o = false ->
    let r := getRecipe_resume o s in
    let r' := step (ClickErrorChild 1) r in
    only_visible error (page r) /\
    (exists message,
        errorMessageDiv_children (page r)
        = [P message; Button (lit "Try Again") TryAgain]) /\
    only_visible input (page r') /\
    errorMessageDiv_children (page r') = [] /\
    dishInput_value (page r') = dishInput_value (page s) /\
    recipeSteps r' = recipeSteps s /\
    currentStepIndex r' = currentStepIndex s.
Proof.
  intros o s U r r'.
  destruct (getRecipe_resume_unusable o s U) as (e & E & _).
  subst r' r. rewrite E. split; [apply showError_only_visible|].
  split; [eexists; reflexivity|].
  split; [|repeat split].
  intros v. destruct v; simpl; split; intros H;
    first [reflexivity | discriminate].
Qed.

Lemma error_recovery_returns_to_input_witness :
  only_visible input
    (page (step (ClickErrorChild 1) (getRecipe_resume no_recipe (cooking browser))))
  /\ errorMessageDiv_children
       (page (step (ClickErrorChild 1)
                (getRecipe_resume no_recipe (cooking browser)))) = []
  /\ dishInput_value
       (page (step (ClickErrorChild 1)
                (getRecipe_resume no_recipe (cooking browser))))
     = dishInput_value (page (cooking browser)).
Proof.
  destruct (error_recovery_returns_to_input no_recipe (cooking browser) eq_refl)
    as (_ & _ & A & B & C & _).
  split; [exact A|]. split; [exact B | exact C].
Defined.

(** ** Reading steps aloud *)

Lemma updateRecipeStepUI_win s :
  recipeSteps s <> [] ->
  win (updateRecipeStepUI s)
  = speak (index (recipeSteps s) (currentStepIndex s)) (win s).
Proof.
  intros N. unfold updateRecipeStepUI.
  destruct (recipeSteps s) eqn:E; [congruence|]. reflexivity.
Qed.

Lemma index_in_range {A : Type} (l : list A) (i : Z) :
  0 <= i <= Z.of_nat (List.length l) - 1 -> exists x, index l i = Some x.
Proof.
  intros H. unfold index.
  destruct (i <? 0) eqn:E; [apply Z.ltb_lt in E; lia|].
  destruct (nth_error l (Z.to_nat i)) as [x|] eqn:N; [eauto|].
  apply nth_error_None in N. lia.
Qed.

Lemma nonempty_length {A : Type} (l : list A) :
  l <> [] <-> 1 <= Z.of_nat (List.length l).
Proof.
  destruct l; simpl List.length; split; intros H;
    try congruence; try lia; discriminate.
Qed.

(** What one call of [updateRecipeStepUI] on loaded steps and a valid
    index does to the window: a single [speak] of the current step. *)
Lemma updateRecipeStepUI_reads_aloud s :
  0 <= currentStepIndex s <= Z.of_nat (List.length (recipeSteps s)) - 1 ->
  exists current,
    index (recipeSteps (updateRecipeStepUI s))
          (currentStepIndex (updateRecipeStepUI s)) = Some current /\
    win (updateRecipeStepUI s) = speak (Some current) (win s).
Proof.
  intros H. destruct (index_in_range _ _ H) as (x & X). exists x.
  rewrite updateRecipeStepUI_recipeSteps, updateRecipeStepUI_currentStepIndex.
  split; [exact X|]. rewrite updateRecipeStepUI_win, X; [reflexivity|].
  apply nonempty_length. lia.
Qed.

(** C7. [speak] empties the speech queue before it queues its utterance,
    so the queue then holds that utterance alone.  Loading non-empty
    steps, a next below the last index, a previous above index [0] and a
    repeat on loaded steps each change the window by exactly one [speak]
    of the step at the resulting index; next at the last index and
    previous at index [0] leave the window as it was. *)
Theorem transitions_read_aloud_once :
  (forall text w q,
      speechSynthesis w = Some q ->
      speechSynthesis (speak text w) = Some [mkUtterance text (lit "en-US")])
  /\
  (forall o s,
      usable_steps o = true ->
      let r := getRecipe_resume o s in
      exists current,
        index (recipeSteps r) (currentStepIndex r) = Some current /\
        win r = speak (Some current) (win s))
  /\
  (forall s,
      index_invariant s ->
      currentStepIndex s < Z.of_nat (List.length (recipeSteps s)) - 1 ->
      let r := handleNextStep s in
      currentStepIndex r = currentStepIndex s + 1 /\
      exists current,
        index (recipeSteps r) (currentStepIndex r) = Some current /\
        win r = speak (Some current) (win s))
  /\
  (forall s,
      index_invariant s ->
      0 < currentStepIndex s ->
      let r := handlePrevStep s in
      currentStepIndex r = currentStepIndex s - 1 /\
      exists current,
        index (recipeSteps r) (currentStepIndex r) = Some current /\
        win r = speak (Some current) (win s))
  /\
  (forall s,
      index_invariant s ->
      recipeSteps s <> [] ->
      let r := handleRepeatStep s in
      exists current,
        index (recipeSteps r) (currentStepIndex r) = Some current /\
        win r = speak (Some current) (win s))
  /\
  (forall s,
      currentStepIndex s = Z.of_nat (List.length (recipeSteps s)) - 1 ->
      win (handleNextStep s) = win s)
  /\
  (forall s, currentStepIndex s = 0 -> win (handlePrevStep s) = win s).
Proof.
  split; [|split; [|split; [|split; [|split; [|split]]]]].
  - intros text w q E. unfold speak. rewrite E. reflexivity.
  - intros o s U r. subst r.
    destruct (getRecipe_resume_usable o s U) as (-> & N).
    apply nonempty_length in N.
    destruct (updateRecipeStepUI_reads_aloud
                (set_currentStepIndex 0 (set_recipeSteps (steps_array o) s)))
      as (x & X & W); [simpl; lia|].
    exists x. split; [exact X | exact W].
  - intros s I L r. subst r. unfold handleNextStep.
    rewrite (proj2 (Z.ltb_lt _ _) L).
    apply index_invariant_elim in I as (I0 & _).
    split; [apply updateRecipeStepUI_currentStepIndex|].
    apply (updateRecipeStepUI_reads_aloud
             (set_currentStepIndex (currentStepIndex s + 1) s)).
    simpl. lia.
  - intros s I L r. subst r. unfold handlePrevStep.
    rewrite (proj2 (Z.ltb_lt _ _) L).
    apply index_invariant_elim in I as (I0 & I1 & I2).
    split; [apply updateRecipeStepUI_currentStepIndex|].
    apply (updateRecipeStepUI_reads_aloud
             (set_currentStepIndex (currentStepIndex s - 1) s)).
    simpl. assert (recipeSteps s <> []) by (intros E; apply I1 in E; lia).
    specialize (I2 H). lia.
  - intros s I N r. subst r. unfold handleRepeatStep.
    apply index_invariant_elim in I as (I0 & _ & I2).
    apply updateRecipeStepUI_reads_aloud. specialize (I2 N). lia.
  - intros s E. unfold handleNextStep. rewrite E, Z.ltb_irrefl. reflexivity.
  - intros s E. unfold handlePrevStep. rewrite E. reflexivity.
Qed.

Lemma transitions_read_aloud_once_witness :
  speechSynthesis (speak (Some (JStr (lit "Whisk"))) (win (cooking browser)))
  = Some [mkUtterance (Some (JStr (lit "Whisk"))) (lit "en-US")]
  /\ (exists current,
        index (recipeSteps (getRecipe_resume omelette failed))
              (currentStepIndex (getRecipe_resume omelette failed))
        = Some current /\
        win (getRecipe_resume omelette failed) = speak (Some current) (win failed))
  /\ (exists current,
        index (recipeSteps (handleNextStep (cooking browser)))
              (currentStepIndex (handleNextStep (cooking browser)))
        = Some current /\
        win (handleNextStep (cooking browser))
        = speak (Some current) (win (cooking browser)))
  /\ (exists current,
        index (recipeSteps (handlePrevStep (step ClickNext (cooking browser))))
              (currentStepIndex
                 (handlePrevStep (step ClickNext (cooking browser))))
        = Some current /\
        win (handlePrevStep (step ClickNext (cooking browser)))
        = speak (Some current) (win (step ClickNext (cooking browser))))
  /\ (exists current,
        index (recipeSteps (handleRepeatStep (cooking browser)))
              (currentStepIndex (handleRepeatStep (cooking browser)))
        = Some current /\
        win (handleRepeatStep (cooking browser))
        = speak (Some current) (win (cooking browser)))
  /\ win (handleNextStep (run [ClickNext; ClickNext] (cooking browser)))
     = win (run [ClickNext; ClickNext] (cooking browser))
  /\ win (handlePrevStep (cooking browser)) = win (cooking browser).
Proof.
  destruct transitions_read_aloud_once
    as (Hspeak & Hload & Hnext & Hprev & Hrepeat & Hlast & Hfirst).
  split; [|split; [|split; [|split; [|split; [|split]]]]].
  - apply (Hspeak _ _ [mkUtterance (Some (JStr (lit "Crack eggs")))
                                   (lit "en-US")]). reflexivity.
  - apply (Hload omelette failed). reflexivity.
  - apply (Hnext (cooking browser)); evaluate.
  - apply (Hprev (step ClickNext (cooking browser))); evaluate.
  - apply (Hrepeat (cooking browser)); evaluate.
  - apply (Hlast (run [ClickNext; ClickNext] (cooking browser))). evaluate.
  - apply (Hfirst (cooking browser)). evaluate.
Defined.

(** ** Starting over *)

(** Where the browser has speech synthesis, [handleStartOver] returns
    with the input view alone visible, no steps, index [0], an empty dish
    field and an empty speech queue. *)
Lemma handleStartOver_with_speech s q :
  speechSynthesis (win s) = Some q ->
  exists s',
    handleStartOver s = Normal s' /\
    only_visible input (page s') /\
    recipeSteps s' = [] /\ currentStepIndex s' = 0 /\
    dishInput_value (page s') = [] /\
    speechSynthesis (win s') = Some [].
Proof.
  intros E. unfold handleStartOver. simpl. rewrite E.
  eexists. split; [reflexivity|].
  split; [apply showView_only_visible | repeat split].
Qed.

(** C8, on a browser without speech synthesis.  A recipe is loaded and
    shown; start over empties the steps and resets the index, then line
    187 throws and [showView('input')] is never reached: the recipe view
    stays visible and the input view hidden. *)
Theorem start_over_without_speech_keeps_recipe_view :
  handleStartOver (cooking silent_browser)
  = Uncaught (ErrorObj (lit "speechSynthesis is not defined"))
             (with_page (set_dishInput_value [])
                (set_currentStepIndex 0
                   (set_recipeSteps [] (cooking silent_browser)))) /\
  let r := step ClickStartOver (cooking silent_browser) in
  recipeSteps r = [] /\
  currentStepIndex r = 0 /\
  visible input (page r) = false /\
  visible recipe (page r) = true.
Proof.
  split; vm_compute; repeat split.
Qed.

(** ** Repeating a step *)

Lemma widgets_in_sync_frame s s' :
  recipeSteps s' = recipeSteps s ->
  currentStepIndex s' = currentStepIndex s ->
  recipeStepText_textContent (page s') = recipeStepText_textContent (page s) ->
  prevStepBtn_disabled (page s') = prevStepBtn_disabled (page s) ->
  nextStepBtn_disabled (page s') = nextStepBtn_disabled (page s) ->
  widgets_in_sync s -> widgets_in_sync s'.
Proof.
  unfold widgets_in_sync. intros -> -> -> -> ->. exact id.
Qed.

Lemma updateRecipeStepUI_in_sync s : widgets_in_sync (updateRecipeStepUI s).
Proof.
  unfold widgets_in_sync, updateRecipeStepUI.
  destruct (recipeSteps s) eqn:E.
  - simpl. congruence.
  - simpl Z.eqb. cbv iota. simpl. rewrite E. intros _. repeat split.
Qed.

Lemma getRecipe_resume_in_sync o s :
  widgets_in_sync s -> widgets_in_sync (getRecipe_resume o s).
Proof.
  intros H. destruct (usable_steps o) eqn:U.
  - destruct (getRecipe_resume_usable o s U) as (-> & _).
    eapply widgets_in_sync_frame; [..|apply updateRecipeStepUI_in_sync];
      reflexivity.
  - destruct (getRecipe_resume_unusable o s U) as (e & -> & _).
    eapply widgets_in_sync_frame; [..|exact H]; reflexivity.
Qed.

Lemma step_in_sync ev s : widgets_in_sync s -> widgets_in_sync (step ev s).
Proof.
  intros H. destruct ev; simpl.
  - exact H.
  - destruct (listening s); [|exact H]. unfold handleFormSubmit.
    destruct (trim _); exact H.
  - destruct (listening s); [|exact H]. unfold handleNextStep.
    destruct (_ <? _); [apply updateRecipeStepUI_in_sync | exact H].
  - destruct (listening s); [|exact H]. unfold handlePrevStep.
    destruct (_ <? _); [apply updateRecipeStepUI_in_sync | exact H].
  - destruct (listening s); [apply updateRecipeStepUI_in_sync | exact H].
  - destruct (listening s); [|exact H]. unfold handleStartOver. simpl.
    destruct (speechSynthesis (win s)); intros N; simpl in N; congruence.
  - destruct (nth_error _ i) as [[t|t|t []]|]; exact H.
  - destruct (pending s); [exact H|].
    apply getRecipe_resume_in_sync. exact H.
Qed.

Lemma reachable_in_sync s : reachable s -> widgets_in_sync s.
Proof.
  intros (d & w & API_KEY & evs & ->).
  assert (I : widgets_in_sync (initialize API_KEY (loaded d w))).
  { destruct API_KEY as [[|c k]|]; intros N; simpl in N; congruence. }
  revert I. generalize (initialize API_KEY (loaded d w)).
  induction evs as [|ev rest IH]; intros s I; simpl.
  - exact I.
  - apply IH, step_in_sync, I.
Qed.

Lemma updateRecipeStepUI_only_speaks s :
  widgets_in_sync s ->
  updateRecipeStepUI s =
    match recipeSteps s with
    | [] => s
    | _ :: _ =>
        with_win (speak (index (recipeSteps s) (currentStepIndex s))) s
    end.
Proof.
  unfold widgets_in_sync, updateRecipeStepUI. intros H.
  destruct (recipeSteps s) eqn:E; [reflexivity|].
  destruct H as (T & Pd & Nd); [discriminate|].
  destruct s as [rs i [a b c e ch v t pd nd] w rq pn li]. simpl in *.
  subst rs t pd nd. reflexivity.
Qed.

(** C9. [handleRepeatStep] never changes the loaded steps, the index or
    which view is visible; in every state the running program reaches it
    changes nothing at all when no steps are loaded, and otherwise nothing
    but the window, by one [speak] of the current step. *)
Theorem repeat_only_reads_aloud :
  forall (s : state),
    recipeSteps (handleRepeatStep s) = recipeSteps s /\
    currentStepIndex (handleRepeatStep s) = currentStepIndex s /\
    (forall v, visible v (page (handleRepeatStep s)) = visible v (page s)) /\
    (reachable s ->
     handleRepeatStep s =
       match recipeSteps s with
       | [] => s
       | _ :: _ =>
           with_win (speak (index (recipeSteps s) (currentStepIndex s))) s
       end).
Proof.
  intros s. unfold handleRepeatStep. split; [|split; [|split]].
  - apply updateRecipeStepUI_recipeSteps.
  - apply updateRecipeStepUI_currentStepIndex.
  - intros v. apply updateRecipeStepUI_views.
  - intros R. apply updateRecipeStepUI_only_speaks, reachable_in_sync, R.
Qed.

Lemma repeat_only_reads_aloud_witness :
  reachable (step ClickNext (cooking browser)) /\
  handleRepeatStep (step ClickNext (cooking browser))
  = with_win (speak (Some (JStr (lit "Whisk"))))
             (step ClickNext (cooking browser)).
Proof.
  assert (R : reachable (step ClickNext (cooking browser))).
  { exists page0, browser, (Some (lit "key")),
      [EditDish (lit "omelette"); SubmitForm; Settle omelette; ClickNext].
    vm_compute. reflexivity. }
  split; [exact R|].
  destruct (repeat_only_reads_aloud (step ClickNext (cooking browser)))
    as (_ & _ & _ & H).
  exact (H R).
Defined.

(** ** Blank submissions *)

Lemma trim_start_blank v :
  forallb is_js_space v = true -> trim_start v = [].
Proof.
  induction v as [|c r IH]; [reflexivity|]. simpl.
  intros H. apply andb_true_iff in H as (-> & H). auto.
Qed.

(** C10. When the dish field is empty or holds nothing but white space,
    [handleFormSubmit] returns the state it was given: no request is
    issued and the views, the steps and the index are as before. *)
Theorem blank_submission_is_ignored :
  forall (s : state),
    forallb is_js_space (dishInput_value (page s)) = true ->
    trim (dishInput_value (page s)) = [] /\
    handleFormSubmit s = s /\
    step SubmitForm s = s.
Proof.
  intros s B.
  assert (T : trim (dishInput_value (page s)) = []).
  { unfold trim. rewrite (trim_start_blank _ B). reflexivity. }
  assert (H : handleFormSubmit s = s).
  { unfold handleFormSubmit. rewrite T. reflexivity. }
  split; [exact T|]. split; [exact H|].
  simpl. rewrite H. destruct (listening s); reflexivity.
Qed.

Lemma blank_submission_is_ignored_witness :
  handleFormSubmit
    (step (EditDish [32; 9; 160; 12288]%N) (cooking browser))
  = step (EditDish [32; 9; 160; 12288]%N) (cooking browser).
Proof.
  assert (B : forallb is_js_space
                (dishInput_value
                   (page (step (EditDish [32; 9; 160; 12288]%N)
                               (cooking browser)))) = true)
    by (vm_compute; reflexivity).
  destruct (blank_submission_is_ignored _ B) as (_ & H & _).
  exact H.
Defined.

(** * Properties of the whole program *)

(** Decides a closed goal about sample states by running the program. *)
Ltac run_it :=
  vm_compute; repeat split; first [reflexivity | discriminate].

(** ** What one event does to the views, the pending count and the steps *)

Lemma only_visible_same d d' v :
  (forall v', visible v' d' = visible v' d) ->
  only_visible v d -> only_visible v d'.
Proof. intros S H v'. rewrite S. apply H. Qed.

Lemma handleFormSubmit_cases s :
  handleFormSubmit s = s \/
  trim (dishInput_value (page s)) <> [] /\
  handleFormSubmit s = getRecipe_start (trim (dishInput_value (page s))) s.
Proof.
  unfold handleFormSubmit. destruct (trim _); [left | right; split];
    congruence.
Qed.

(** Either the event leaves the views and the pending count alone (and
    the steps too, unless start over threw for want of speech synthesis),
    or it ends in a single visible view: the loading view with a request
    in flight, the recipe view with steps loaded, the input view or the
    error view. *)
Lemma step_effect ev s :
  ((forall v, visible v (page (step ev s)) = visible v (page s)) /\
   pending (step ev s) = pending s /\
   (recipeSteps (step ev s) = recipeSteps s \/
    speechSynthesis (win s) = None))
  \/
  (exists v,
      only_visible v (page (step ev s)) /\
      (v = loading -> pending (step ev s) <> 0%nat) /\
      (v = recipe -> recipeSteps (step ev s) <> [])).
Proof.
  assert (Q : forall r, r = s ->
    (forall v, visible v (page r) = visible v (page s)) /\
    pending r = pending s /\
    (recipeSteps r = recipeSteps s \/ speechSynthesis (win s) = None))
    by (intros r ->; auto).
  assert (U : forall t,
    recipeSteps t = recipeSteps s -> pending t = pending s ->
    (forall v, visible v (page t) = visible v (page s)) ->
    (forall v, visible v (page (updateRecipeStepUI t)) = visible v (page s)) /\
    pending (updateRecipeStepUI t) = pending s /\
    (recipeSteps (updateRecipeStepUI t) = recipeSteps s \/
     speechSynthesis (win s) = None)).
  { intros t Hs Hp Hv. split; [|split].
    - intros v. rewrite updateRecipeStepUI_views. apply Hv.
    - rewrite <- Hp. unfold updateRecipeStepUI.
      destruct (_ =? 0); reflexivity.
    - left. rewrite updateRecipeStepUI_recipeSteps. exact Hs. }
  destruct ev; simpl.
  - left. repeat split; auto; intros v; destruct v; reflexivity.
  - destruct (listening s); [|left; apply Q; reflexivity].
    destruct (handleFormSubmit_cases s) as [E | (N & E)].
    + left. apply Q, E.
    + right. exists loading. rewrite E.
      split; [apply showView_only_visible|].
      split; [intros _; discriminate | discriminate].
  - destruct (listening s); [|left; apply Q; reflexivity].
    left. unfold handleNextStep.
    destruct (_ <? _); [apply U; reflexivity | apply Q; reflexivity].
  - destruct (listening s); [|left; apply Q; reflexivity].
    left. unfold handlePrevStep.
    destruct (_ <? _); [apply U; reflexivity | apply Q; reflexivity].
  - destruct (listening s); [|left; apply Q; reflexivity].
    left. apply U; reflexivity.
  - destruct (listening s); [|left; apply Q; reflexivity].
    unfold handleStartOver. simpl.
    destruct (speechSynthesis (win s)) eqn:E; simpl.
    + right. exists input. split; [|split; discriminate].
      intros v. destruct v; simpl; split; intros H;
        first [reflexivity | discriminate].
    + left. repeat split; auto; intros v; destruct v; reflexivity.
  - destruct (nth_error _ i) as [[t|t|t []]|];
      try (left; apply Q; reflexivity);
      try (left; repeat split; auto; intros v; destruct v; reflexivity).
    right. exists input. split; [|split; discriminate].
    intros v. destruct v; simpl; split; intros H;
      first [reflexivity | discriminate].
  - destruct (pending s) as [|n] eqn:Pn; [left; apply Q; reflexivity|].
    right. match goal with |- context [getRecipe_resume o ?t] =>
      destruct (getRecipe_resume_one_view o t) as (Hr & He);
      destruct (usable_steps o) eqn:Us;
      [exists recipe | exists error]; (split; [auto|]);
      (split; [discriminate|]); try discriminate;
      intros _; destruct (getRecipe_resume_usable o t Us) as (-> & Ne)
    end.
    simpl. rewrite updateRecipeStepUI_recipeSteps. exact Ne.
Qed.

(** Whether the browser can speak never changes. *)
Lemma speak_support text w :
  speechSynthesis (speak text w) = None <-> speechSynthesis w = None.
Proof.
  unfold speak. destruct (speechSynthesis w); simpl; split; congruence.
Qed.

Lemma updateRecipeStepUI_support s :
  speechSynthesis (win (updateRecipeStepUI s)) = None
  <-> speechSynthesis (win s) = None.
Proof.
  unfold updateRecipeStepUI. destruct (_ =? 0); [reflexivity|].
  apply speak_support.
Qed.

Lemma getRecipe_resume_support o s :
  speechSynthesis (win (getRecipe_resume o s)) = None
  <-> speechSynthesis (win s) = None.
Proof.
  destruct (usable_steps o) eqn:U.
  - destruct (getRecipe_resume_usable o s U) as (-> & _).
    simpl. rewrite updateRecipeStepUI_support. reflexivity.
  - destruct (getRecipe_resume_unusable o s U) as (e & -> & _). reflexivity.
Qed.

Lemma step_support ev s :
  speechSynthesis (win (step ev s)) = None
  <-> speechSynthesis (win s) = None.
Proof.
  destruct ev; simpl; try reflexivity.
  - destruct (listening s); [|reflexivity].
    destruct (handleFormSubmit_cases s) as [-> | (_ & ->)]; reflexivity.
  - destruct (listening s); [|reflexivity]. unfold handleNextStep.
    destruct (_ <? _);
      [rewrite updateRecipeStepUI_support|]; reflexivity.
  - destruct (listening s); [|reflexivity]. unfold handlePrevStep.
    destruct (_ <? _);
      [rewrite updateRecipeStepUI_support|]; reflexivity.
  - destruct (listening s); [apply updateRecipeStepUI_support | reflexivity].
  - destruct (listening s); [|reflexivity]. unfold handleStartOver. simpl.
    destruct (speechSynthesis (win s)) eqn:E; simpl; rewrite ?E;
      split; congruence.
  - destruct (nth_error _ i); reflexivity.
  - destruct (pending s); [reflexivity|].
    rewrite getRecipe_resume_support. reflexivity.
Qed.

Lemma run_support evs : forall s,
  speechSynthesis (win (run evs s)) = None
  <-> speechSynthesis (win s) = None.
Proof.
  induction evs as [|ev rest IH]; intros s; simpl; [reflexivity|].
  rewrite IH. apply step_support.
Qed.

Lemma initialize_views API_KEY d w :
  only_visible (if missing_key API_KEY then error else input)
               (page (initialize API_KEY (loaded d w))).
Proof.
  destruct API_KEY as [[|c k]|]; cbn [missing_key].
  - apply showError_only_visible.
  - apply (showView_only_visible input).
  - apply showError_only_visible.
Qed.

(** A generic induction over the events that follow start-up. *)
Lemma run_induction (Inv : state -> Prop) :
  (forall ev s, Inv s -> Inv (step ev s)) ->
  forall evs s, Inv s -> Inv (run evs s).
Proof.
  intros Hstep. induction evs as [|ev rest IH]; intros s H; simpl; auto.
Qed.

(** ** Views over whole runs *)

Lemma step_views_inv ev s : views_inv s -> views_inv (step ev s).
Proof.
  intros (Hv & Hl & Hr).
  destruct (step_effect ev s) as [(Sv & Sp & Ss) | (v & Ov & Ol & Or)].
  - split; [|split].
    + destruct Hv as (v & Hv). exists v.
      apply (only_visible_same (page s)); assumption.
    + rewrite Sv, Sp. exact Hl.
    + intros Sup Vis. rewrite Sv in Vis.
      assert (Sup' : speechSynthesis (win s) <> None)
        by (intros E; apply Sup, step_support, E).
      destruct Ss as [-> | E]; [auto | contradiction].
  - split; [exists v; exact Ov|]. split.
    + intros Vis. apply Ol. symmetry. apply Ov, Vis.
    + intros _ Vis. apply Or. symmetry. apply Ov, Vis.
Qed.

Lemma initialize_views_inv API_KEY d w :
  views_inv (initialize API_KEY (loaded d w)).
Proof.
  pose proof (initialize_views API_KEY d w) as H.
  split; [eexists; exact H|]. split.
  - intros Vis. apply H in Vis. destruct (missing_key API_KEY); discriminate.
  - intros _ Vis. apply H in Vis. destruct (missing_key API_KEY); discriminate.
Qed.

Lemma run_views_inv API_KEY d w evs :
  views_inv (run evs (initialize API_KEY (loaded d w))).
Proof.
  apply run_induction; [apply step_views_inv | apply initialize_views_inv].
Qed.

(** X1. At every moment after start-up exactly one of the four views is
    visible, whatever the page looked like when it was loaded and
    whatever events and responses followed. *)
Theorem one_view_at_a_time :
  forall (d : dom) (w : window) (API_KEY : option jsstring)
         (evs : list event),
    exists v, only_visible v (page (run evs (initialize API_KEY (loaded d w)))).
Proof.
  intros d w API_KEY evs. apply (run_views_inv API_KEY d w evs).
Qed.

(** X2. The loading view is never left up with nothing in flight:
    whenever it is visible, at least one request has not settled. *)
Theorem loading_means_request_in_flight :
  forall (d : dom) (w : window) (API_KEY : option jsstring)
         (evs : list event),
    let s := run evs (initialize API_KEY (loaded d w)) in
    visible loading (page s) = true -> pending s <> 0%nat.
Proof.
  intros d w API_KEY evs. apply (run_views_inv API_KEY d w evs).
Qed.

Lemma loading_means_request_in_flight_witness :
  visible loading
    (page (run [EditDish (lit "omelette"); SubmitForm]
               (initialize (Some (lit "key")) (loaded page0 browser)))) = true
  /\ pending (run [EditDish (lit "omelette"); SubmitForm]
                  (initialize (Some (lit "key")) (loaded page0 browser)))
     <> 0%nat.
Proof.
  assert (V : visible loading
                (page (run [EditDish (lit "omelette"); SubmitForm]
                           (initialize (Some (lit "key"))
                                       (loaded page0 browser)))) = true)
    by (vm_compute; reflexivity).
  split; [exact V|].
  exact (loading_means_request_in_flight page0 browser (Some (lit "key"))
           [EditDish (lit "omelette"); SubmitForm] V).
Defined.

(** ** The step display and the speech queue over whole runs *)

(** X4. Whenever steps are loaded, the step text shows the step at the
    current index, "previous" is disabled exactly at index [0] and "next"
    exactly at the last index. *)
Theorem step_display_in_sync :
  forall (d : dom) (w : window) (API_KEY : option jsstring)
         (evs : list event),
    let s := run evs (initialize API_KEY (loaded d w)) in
    recipeSteps s <> [] ->
    recipeStepText_textContent (page s)
    = index (recipeSteps s) (currentStepIndex s) /\
    (prevStepBtn_disabled (page s) = true <-> currentStepIndex s = 0) /\
    (nextStepBtn_disabled (page s) = true <->
     currentStepIndex s = Z.of_nat (List.length (recipeSteps s)) - 1).
Proof.
  intros d w API_KEY evs s N.
  assert (R : reachable s) by (exists d, w, API_KEY, evs; reflexivity).
  destruct (reachable_in_sync s R N) as (T & Pd & Nd).
  split; [exact T|]. rewrite Pd, Nd. split; apply Z.eqb_eq.
Qed.

Lemma step_display_in_sync_witness :
  recipeStepText_textContent
    (page (run [EditDish (lit "omelette"); SubmitForm; Settle omelette;
                ClickNext; ClickNext]
               (initialize (Some (lit "key")) (loaded page0 browser))))
  = index
      (recipeSteps
         (run [EditDish (lit "omelette"); SubmitForm; Settle omelette;
               ClickNext; ClickNext]
              (initialize (Some (lit "key")) (loaded page0 browser))))
      (currentStepIndex
         (run [EditDish (lit "omelette"); SubmitForm; Settle omelette;
               ClickNext; ClickNext]
              (initialize (Some (lit "key")) (loaded page0 browser)))).
Proof.
  apply (step_display_in_sync page0 browser (Some (lit "key"))
           [EditDish (lit "omelette"); SubmitForm; Settle omelette;
            ClickNext; ClickNext]).
  vm_compute. discriminate.
Defined.

Lemma speech_in_sync_frame s s' :
  recipeSteps s' = recipeSteps s ->
  currentStepIndex s' = currentStepIndex s ->
  speechSynthesis (win s') = speechSynthesis (win s) ->
  speech_in_sync s -> speech_in_sync s'.
Proof.
  unfold speech_in_sync, current_utterance. intros -> -> ->. exact id.
Qed.

Lemma updateRecipeStepUI_speech s : speech_in_sync (updateRecipeStepUI s).
Proof.
  unfold speech_in_sync, current_utterance.
  rewrite updateRecipeStepUI_recipeSteps, updateRecipeStepUI_currentStepIndex.
  intros N queue. rewrite (updateRecipeStepUI_win s N). unfold speak.
  destruct (speechSynthesis (win s)); simpl; congruence.
Qed.

Lemma getRecipe_resume_speech o s :
  speech_in_sync s -> speech_in_sync (getRecipe_resume o s).
Proof.
  intros H. destruct (usable_steps o) eqn:U.
  - destruct (getRecipe_resume_usable o s U) as (-> & _).
    eapply speech_in_sync_frame; [..|apply updateRecipeStepUI_speech];
      reflexivity.
  - destruct (getRecipe_resume_unusable o s U) as (e & -> & _).
    eapply speech_in_sync_frame; [..|exact H]; reflexivity.
Qed.

Lemma step_speech_in_sync ev s :
  speech_in_sync s -> speech_in_sync (step ev s).
Proof.
  intros H. destruct ev; simpl.
  - exact H.
  - destruct (listening s); [|exact H].
    destruct (handleFormSubmit_cases s) as [-> | (_ & ->)]; exact H.
  - destruct (listening s); [|exact H]. unfold handleNextStep.
    destruct (_ <? _); [apply updateRecipeStepUI_speech | exact H].
  - destruct (listening s); [|exact H]. unfold handlePrevStep.
    destruct (_ <? _); [apply updateRecipeStepUI_speech | exact H].
  - destruct (listening s); [apply updateRecipeStepUI_speech | exact H].
  - destruct (listening s); [|exact H]. unfold handleStartOver. simpl.
    destruct (speechSynthesis (win s)); intros N; simpl in N; congruence.
  - destruct (nth_error _ i) as [[t|t|t []]|]; exact H.
  - destruct (pending s); [exact H|].
    apply getRecipe_resume_speech. exact H.
Qed.

Lemma step_queue_bound ev s :
  (forall q, speechSynthesis (win s) = Some q -> (List.length q <= 1)%nat) ->
  forall q, speechSynthesis (win (step ev s)) = Some q ->
            (List.length q <= 1)%nat.
Proof.
  intros H.
  assert (U : forall t, win t = win s ->
    forall q, speechSynthesis (win (updateRecipeStepUI t)) = Some q ->
              (List.length q <= 1)%nat).
  { intros t W q. unfold updateRecipeStepUI.
    destruct (_ =? 0); [rewrite W; apply H|]. simpl. rewrite W.
    unfold speak. destruct (speechSynthesis (win s)); simpl; [|discriminate].
    intros [= <-]. simpl. lia. }
  destruct ev; simpl; try exact H.
  - destruct (listening s); [|exact H].
    destruct (handleFormSubmit_cases s) as [-> | (_ & ->)]; exact H.
  - destruct (listening s); [|exact H]. unfold handleNextStep.
    destruct (_ <? _); [apply U; reflexivity | exact H].
  - destruct (listening s); [|exact H]. unfold handlePrevStep.
    destruct (_ <? _); [apply U; reflexivity | exact H].
  - destruct (listening s); [apply U; reflexivity | exact H].
  - destruct (listening s); [|exact H]. unfold handleStartOver. simpl.
    destruct (speechSynthesis (win s)) eqn:E; simpl.
    + intros q [= <-]. simpl. lia.
    + rewrite E. discriminate.
  - destruct (nth_error _ i); exact H.
  - destruct (pending s); [exact H|].
    destruct (usable_steps o) eqn:Us.
    + match goal with |- context [getRecipe_resume o ?t] =>
        destruct (getRecipe_resume_usable o t Us) as (-> & _) end.
      apply U. reflexivity.
    + match goal with |- context [getRecipe_resume o ?t] =>
        destruct (getRecipe_resume_unusable o t Us) as (e & -> & _) end.
      exact H.
Qed.

(** X6. The program never piles up speech.  In a browser without speech
    synthesis no utterance is ever queued; in a browser whose queue held
    at most one utterance when the page was loaded, it holds at most one
    after any run. *)
Theorem speech_queue_bounded :
  forall (d : dom) (w : window) (API_KEY : option jsstring)
         (evs : list event),
    let s := run evs (initialize API_KEY (loaded d w)) in
    (speechSynthesis w = None -> speechSynthesis (win s) = None) /\
    (forall q0, speechSynthesis w = Some q0 -> (List.length q0 <= 1)%nat ->
       exists q, speechSynthesis (win s) = Some q /\ (List.length q <= 1)%nat).
Proof.
  intros d w API_KEY evs s.
  assert (W : win (initialize API_KEY (loaded d w)) = w)
    by (destruct API_KEY as [[|c k]|]; reflexivity).
  split.
  - intros E. apply run_support. rewrite W. exact E.
  - intros q0 E L.
    assert (B : forall q, speechSynthesis (win s) = Some q ->
                          (List.length q <= 1)%nat).
    { apply (run_induction
               (fun t => forall q, speechSynthesis (win t) = Some q ->
                                   (List.length q <= 1)%nat)).
      - apply step_queue_bound.
      - rewrite W. intros q. rewrite E. intros [= <-]. exact L. }
    destruct (speechSynthesis (win s)) as [q|] eqn:Q.
    + exists q. split; [reflexivity | apply B; reflexivity].
    + apply run_support in Q. rewrite W in Q. congruence.
Qed.

Lemma speech_queue_bounded_witness :
  speechSynthesis
    (win (run [EditDish (lit "omelette"); SubmitForm; Settle omelette]
              (initialize (Some (lit "key")) (loaded page0 silent_browser))))
  = None /\
  exists q,
    speechSynthesis
      (win (run [EditDish (lit "omelette"); SubmitForm; Settle omelette]
                (initialize (Some (lit "key")) (loaded page0 browser))))
    = Some q /\ (List.length q <= 1)%nat.
Proof.
  split.
  - apply (speech_queue_bounded page0 silent_browser (Some (lit "key"))
             [EditDish (lit "omelette"); SubmitForm; Settle omelette]).
    reflexivity.
  - apply (proj2 (speech_queue_bounded page0 browser (Some (lit "key"))
             [EditDish (lit "omelette"); SubmitForm; Settle omelette]) []).
    + reflexivity.
    + simpl. lia.
Defined.

(** ** Navigation *)

Lemma updateRecipeStepUI_listening s :
  listening (updateRecipeStepUI s) = listening s.
Proof. unfold updateRecipeStepUI. destruct (_ =? 0); reflexivity. Qed.

Lemma updateRecipeStepUI_text s :
  recipeSteps s <> [] ->
  recipeStepText_textContent (page (updateRecipeStepUI s))
  = index (recipeSteps s) (currentStepIndex s).
Proof.
  intros N. unfold updateRecipeStepUI.
  destruct (recipeSteps s) eqn:E; [congruence | reflexivity].
Qed.

(** X7. Next and previous undo each other away from the ends: below the
    last index, next followed by previous comes back to the same index,
    the same steps and the same step text; above index [0], so does
    previous followed by next. *)
Theorem next_and_previous_are_inverse :
  forall (s : state),
    index_invariant s ->
    (currentStepIndex s < Z.of_nat (List.length (recipeSteps s)) - 1 ->
     let r := handlePrevStep (handleNextStep s) in
     currentStepIndex r = currentStepIndex s /\
     recipeSteps r = recipeSteps s /\
     recipeStepText_textContent (page r)
     = index (recipeSteps s) (currentStepIndex s)) /\
    (0 < currentStepIndex s ->
     let r := handleNextStep (handlePrevStep s) in
     currentStepIndex r = currentStepIndex s /\
     recipeSteps r = recipeSteps s /\
     recipeStepText_textContent (page r)
     = index (recipeSteps s) (currentStepIndex s)).
Proof.
  intros s I. apply index_invariant_elim in I as (I0 & I1 & I2).
  split; intros L r; subst r.
  - assert (N : recipeSteps s <> [])
      by (apply nonempty_length; lia).
    unfold handleNextStep. rewrite (proj2 (Z.ltb_lt _ _) L).
    unfold handlePrevStep.
    rewrite updateRecipeStepUI_currentStepIndex. simpl currentStepIndex.
    replace (0 <? currentStepIndex s + 1) with true
      by (symmetry; apply Z.ltb_lt; lia).
    rewrite updateRecipeStepUI_currentStepIndex,
            updateRecipeStepUI_recipeSteps, updateRecipeStepUI_text;
      simpl; rewrite ?updateRecipeStepUI_currentStepIndex,
                     ?updateRecipeStepUI_recipeSteps; simpl; auto.
    replace (currentStepIndex s + 1 - 1) with (currentStepIndex s) by lia.
    auto.
  - assert (N : recipeSteps s <> [])
      by (intros E; apply I1 in E; lia).
    specialize (I2 N).
    unfold handlePrevStep. rewrite (proj2 (Z.ltb_lt _ _) L).
    unfold handleNextStep.
    rewrite updateRecipeStepUI_currentStepIndex,
            updateRecipeStepUI_recipeSteps.
    simpl currentStepIndex. simpl recipeSteps.
    replace (currentStepIndex s - 1
             <? Z.of_nat (List.length (recipeSteps s)) - 1) with true
      by (symmetry; apply Z.ltb_lt; lia).
    rewrite updateRecipeStepUI_currentStepIndex,
            updateRecipeStepUI_recipeSteps, updateRecipeStepUI_text;
      simpl; rewrite ?updateRecipeStepUI_currentStepIndex,
                     ?updateRecipeStepUI_recipeSteps; simpl; auto.
    replace (currentStepIndex s - 1 + 1) with (currentStepIndex s) by lia.
    auto.
Qed.

Lemma next_and_previous_are_inverse_witness :
  currentStepIndex (handlePrevStep (handleNextStep (cooking browser)))
  = currentStepIndex (cooking browser) /\
  currentStepIndex
    (handleNextStep (handlePrevStep (step ClickNext (cooking browser))))
  = currentStepIndex (step ClickNext (cooking browser)).
Proof.
  assert (I1 : index_invariant (cooking browser)) by run_it.
  assert (I2 : index_invariant (step ClickNext (cooking browser)))
    by run_it.
  assert (L1 : currentStepIndex (cooking browser)
               < Z.of_nat (List.length (recipeSteps (cooking browser))) - 1)
    by run_it.
  assert (L2 : 0 < currentStepIndex (step ClickNext (cooking browser)))
    by run_it.
  split.
  - exact (proj1 (proj1 (next_and_previous_are_inverse _ I1) L1)).
  - exact (proj1 (proj2 (next_and_previous_are_inverse _ I2) L2)).
Defined.

Lemma step_nav_frame ev s :
  ev = ClickNext \/ ev = ClickPrev ->
  listening (step ev s) = listening s /\
  recipeSteps (step ev s) = recipeSteps s.
Proof.
  intros [-> | ->]; simpl; destruct (listening s) eqn:L; auto;
    unfold handleNextStep, handlePrevStep; destruct (_ <? _); auto;
    rewrite updateRecipeStepUI_listening, updateRecipeStepUI_recipeSteps;
    auto.
Qed.

Lemma step_next_index s :
  listening s = true ->
  currentStepIndex (step ClickNext s)
  = if currentStepIndex s <? Z.of_nat (List.length (recipeSteps s)) - 1
    then currentStepIndex s + 1 else currentStepIndex s.
Proof.
  intros L. simpl. rewrite L. unfold handleNextStep.
  destruct (_ <? _); [|reflexivity].
  apply updateRecipeStepUI_currentStepIndex.
Qed.

Lemma step_prev_index s :
  listening s = true ->
  currentStepIndex (step ClickPrev s)
  = if 0 <? currentStepIndex s
    then currentStepIndex s - 1 else currentStepIndex s.
Proof.
  intros L. simpl. rewrite L. unfold handlePrevStep.
  destruct (_ <? _); [|reflexivity].
  apply updateRecipeStepUI_currentStepIndex.
Qed.

(** X8. Repeated presses saturate at the ends: with steps loaded, [k]
    presses of "next" move the index to [min (index + k) (length - 1)]
    and [k] presses of "previous" to [max (index - k) 0]; the steps stay
    as they are. *)
Theorem presses_saturate :
  forall (k : nat) (s : state),
    listening s = true ->
    index_invariant s ->
    recipeSteps s <> [] ->
    currentStepIndex (run (repeat ClickNext k) s)
    = Z.min (currentStepIndex s + Z.of_nat k)
            (Z.of_nat (List.length (recipeSteps s)) - 1) /\
    currentStepIndex (run (repeat ClickPrev k) s)
    = Z.max (currentStepIndex s - Z.of_nat k) 0 /\
    recipeSteps (run (repeat ClickNext k) s) = recipeSteps s /\
    recipeSteps (run (repeat ClickPrev k) s) = recipeSteps s.
Proof.
  induction k as [|k IH]; intros s L I N.
  - apply index_invariant_elim in I as (I0 & _ & I2). specialize (I2 N).
    simpl. repeat split; lia.
  - pose proof (index_invariant_elim s I) as (I0 & _ & I2).
    specialize (I2 N). rewrite Nat2Z.inj_succ. cbn [repeat run].
    destruct (step_nav_frame ClickNext s (or_introl eq_refl)) as (Ln & Sn).
    destruct (step_nav_frame ClickPrev s (or_intror eq_refl)) as (Lp & Sp).
    destruct (IH (step ClickNext s)) as (A & _ & C & _);
      [congruence | apply step_invariant, I | congruence |].
    destruct (IH (step ClickPrev s)) as (_ & B & _ & D);
      [congruence | apply step_invariant, I | congruence |].
    rewrite A, B, C, D, Sn, Sp, step_next_index, step_prev_index by exact L.
    repeat split.
    + destruct (_ <? _) eqn:E;
        [apply Z.ltb_lt in E | apply Z.ltb_ge in E]; lia.
    + destruct (0 <? _) eqn:E;
        [apply Z.ltb_lt in E | apply Z.ltb_ge in E]; lia.
Qed.

Lemma presses_saturate_witness :
  currentStepIndex (run (repeat ClickNext 5) (cooking browser))
  = Z.min (currentStepIndex (cooking browser) + Z.of_nat 5)
          (Z.of_nat (List.length (recipeSteps (cooking browser))) - 1).
Proof.
  assert (L : listening (cooking browser) = true) by run_it.
  assert (I : index_invariant (cooking browser)) by run_it.
  assert (N : recipeSteps (cooking browser) <> []) by run_it.
  exact (proj1 (presses_saturate 5 (cooking browser) L I N)).
Defined.

(** X9. After start over nothing is left to navigate: whether or not it
    threw, next, previous and repeat return the state they are given, so
    no text is changed and nothing is read aloud. *)
Theorem navigation_after_start_over_is_idle :
  forall (s : state),
    let r := state_of (handleStartOver s) in
    handleNextStep r = r /\ handlePrevStep r = r /\ handleRepeatStep r = r.
Proof.
  intros s r. subst r. unfold handleStartOver. simpl.
  destruct (speechSynthesis (win s)); repeat split.
Qed.

(** ** The error box *)

Lemma updateRecipeStepUI_children s :
  errorMessageDiv_children (page (updateRecipeStepUI s))
  = errorMessageDiv_children (page s).
Proof. unfold updateRecipeStepUI. destruct (_ =? 0); reflexivity. Qed.

Lemma getRecipe_catch_children e s :
  exists message,
    errorMessageDiv_children (page (getRecipe_catch e s)) = error_box message.
Proof. eexists. reflexivity. Qed.

Lemma step_error_effect ev s :
  ((forall v, visible v (page (step ev s)) = visible v (page s)) /\
   errorMessageDiv_children (page (step ev s))
   = errorMessageDiv_children (page s))
  \/
  (exists v,
      only_visible v (page (step ev s)) /\
      (v = error ->
       exists message,
         errorMessageDiv_children (page (step ev s)) = error_box message)).
Proof.
  assert (Q : forall r, r = s ->
    (forall v, visible v (page r) = visible v (page s)) /\
    errorMessageDiv_children (page r) = errorMessageDiv_children (page s))
    by (intros r ->; auto).
  assert (U : forall t,
    errorMessageDiv_children (page t) = errorMessageDiv_children (page s) ->
    (forall v, visible v (page t) = visible v (page s)) ->
    (forall v, visible v (page (updateRecipeStepUI t)) = visible v (page s)) /\
    errorMessageDiv_children (page (updateRecipeStepUI t))
    = errorMessageDiv_children (page s)).
  { intros t Hc Hv. split.
    - intros v. rewrite updateRecipeStepUI_views. apply Hv.
    - rewrite updateRecipeStepUI_children. exact Hc. }
  assert (V : forall d : dom, only_visible input (showView input d))
    by (intros d; apply showView_only_visible).
  destruct ev; simpl.
  - left. split; auto; intros v; destruct v; reflexivity.
  - destruct (listening s); [|left; apply Q; reflexivity].
    destruct (handleFormSubmit_cases s) as [E | (N & E)].
    + left. apply Q, E.
    + right. exists loading. rewrite E.
      split; [apply showView_only_visible | discriminate].
  - destruct (listening s); [|left; apply Q; reflexivity].
    left. unfold handleNextStep.
    destruct (_ <? _); [apply U; reflexivity | apply Q; reflexivity].
  - destruct (listening s); [|left; apply Q; reflexivity].
    left. unfold handlePrevStep.
    destruct (_ <? _); [apply U; reflexivity | apply Q; reflexivity].
  - destruct (listening s); [|left; apply Q; reflexivity].
    left. apply U; reflexivity.
  - destruct (listening s); [|left; apply Q; reflexivity].
    unfold handleStartOver. simpl.
    destruct (speechSynthesis (win s)) eqn:E; simpl.
    + right. exists input. split; [apply V | discriminate].
    + left. split; auto; intros v; destruct v; reflexivity.
  - destruct (nth_error _ i) as [[t|t|t []]|];
      try (left; apply Q; reflexivity);
      try (left; split; auto; intros v; destruct v; reflexivity).
    right. exists input. split; [|discriminate].
    apply (only_visible_same (showView input (page s))); [|apply V].
    intros v; destruct v; reflexivity.
  - destruct (pending s) as [|n] eqn:Pn; [left; apply Q; reflexivity|].
    right. match goal with |- context [getRecipe_resume o ?t] =>
      destruct (getRecipe_resume_one_view o t) as (Hr & He);
      destruct (usable_steps o) eqn:Us;
      [exists recipe; split; [auto | discriminate] |
       exists error; split; [auto|]; intros _;
       destruct (getRecipe_resume_unusable o t Us) as (e & -> & _)]
    end.
    apply getRecipe_catch_children.
Qed.

(** X10. The error view never appears without its way out: whenever it
    is visible, the error box holds exactly one message paragraph and one
    "Try Again" button, however many failures came before. *)
Theorem error_view_has_recovery_control :
  forall (d : dom) (w : window) (API_KEY : option jsstring)
         (evs : list event),
    let s := run evs (initialize API_KEY (loaded d w)) in
    visible error (page s) = true ->
    exists message,
      errorMessageDiv_children (page s)
      = [P (lit "Oops! Something went wrong: " ++ message ++ lit ".");
         Button (lit "Try Again") TryAgain].
Proof.
  intros d w API_KEY evs.
  apply (run_induction
           (fun s => visible error (page s) = true ->
                     exists message,
                       errorMessageDiv_children (page s) = error_box message)).
  - intros ev s H.
    destruct (step_error_effect ev s) as [(Sv & Sc) | (v & Ov & Oe)].
    + rewrite Sv, Sc. exact H.
    + intros Vis. apply Oe. symmetry. apply Ov, Vis.
  - destruct API_KEY as [[|c k]|]; intros Vis;
      first [ exists (lit "API_KEY is not configured."); reflexivity
            | simpl in Vis; discriminate ].
Qed.

Lemma error_view_has_recovery_control_witness :
  exists message,
    errorMessageDiv_children
      (page (run [EditDish (lit "omelette"); SubmitForm;
                  Settle (Thrown NotAnError); SubmitForm; Settle no_recipe]
                 (initialize (Some (lit "key")) (loaded page0 browser))))
    = [P (lit "Oops! Something went wrong: " ++ message ++ lit ".");
       Button (lit "Try Again") TryAgain].
Proof.
  apply (error_view_has_recovery_control page0 browser (Some (lit "key"))
           [EditDish (lit "omelette"); SubmitForm;
            Settle (Thrown NotAnError); SubmitForm; Settle no_recipe]).
  vm_compute. reflexivity.
Defined.

(** ** Start-up without a key *)

Lemma inert_with_page w s f :
  (forall v, visible v (f (page s)) = visible v (page s)) \/
  only_visible input (f (page s)) ->
  inert w s -> inert w (with_page f s).
Proof.
  intros F (L & Rq & Pn & St & Ix & W & V).
  split; [exact L|]. split; [exact Rq|]. split; [exact Pn|].
  split; [exact St|]. split; [exact Ix|]. split; [exact W|].
  destruct F as [F|F]; [|right; exact F].
  destruct V as [V|V]; [left|right];
    exact (only_visible_same (page s) _ _ F V).
Qed.

Lemma step_inert w ev s : inert w s -> inert w (step ev s).
Proof.
  intros H. pose proof H as (L & _ & Pn & _).
  destruct ev; simpl; rewrite ?L, ?Pn; try exact H.
  destruct (nth_error _ i) as [[t|t|t []]|]; try exact H.
  apply inert_with_page; [right | exact H].
  apply (only_visible_same (showView input (page s)));
    [intros v; destruct v; reflexivity | apply showView_only_visible].
Qed.

(** X11. Without an API key the program is inert.  Start-up shows the
    error view with "API_KEY is not configured." and registers no
    handler, so whatever the user then does no request is ever issued,
    no steps are loaded, nothing is spoken or logged, and the only views
    ever shown are the error view and, after "Try Again", the input
    view. *)
Theorem no_key_no_requests :
  forall (d : dom) (w : window) (API_KEY : option jsstring)
         (evs : list event),
    missing_key API_KEY = true ->
    errorMessageDiv_children (page (initialize API_KEY (loaded d w)))
    = [P (lit "Oops! Something went wrong: API_KEY is not configured..");
       Button (lit "Try Again") TryAgain] /\
    let s := run evs (initialize API_KEY (loaded d w)) in
    requests s = [] /\ pending s = 0%nat /\
    recipeSteps s = [] /\ currentStepIndex s = 0 /\ win s = w /\
    (only_visible error (page s) \/ only_visible input (page s)).
Proof.
  intros d w API_KEY evs M.
  assert (I0 : inert w (initialize API_KEY (loaded d w))).
  { destruct API_KEY as [[|c k]|]; try discriminate;
      (repeat split; try reflexivity; left; apply showError_only_visible). }
  split.
  - destruct API_KEY as [[|c k]|]; try discriminate; vm_compute; reflexivity.
  - apply (run_induction (inert w) (step_inert w) evs) in I0.
    destruct I0 as (_ & H). exact H.
Qed.

Lemma no_key_no_requests_witness :
  requests (run [EditDish (lit "omelette"); SubmitForm; ClickNext;
                 ClickStartOver; ClickErrorChild 1; SubmitForm]
                (initialize None (loaded page0 browser))) = [].
Proof.
  apply (no_key_no_requests page0 browser None
           [EditDish (lit "omelette"); SubmitForm; ClickNext;
            ClickStartOver; ClickErrorChild 1; SubmitForm]).
  reflexivity.
Defined.

(** ** What is sent to the service *)

Lemma trim_start_head v c r :
  trim_start v = c :: r -> is_js_space c = false.
Proof.
  induction v as [|a v IH]; simpl; [discriminate|].
  destruct (is_js_space a) eqn:E; [exact IH|].
  intros [= <- _]. exact E.
Qed.

Lemma trim_start_fixed v :
  (forall c r, v = c :: r -> is_js_space c = false) -> trim_start v = v.
Proof.
  destruct v as [|a v]; [reflexivity|]. intros H. simpl.
  rewrite (H a v eq_refl). reflexivity.
Qed.

Lemma trim_start_idempotent v : trim_start (trim_start v) = trim_start v.
Proof.
  apply trim_start_fixed. intros c r E. exact (trim_start_head _ _ _ E).
Qed.

Lemma trim_start_split v :
  exists blank, v = blank ++ trim_start v.
Proof.
  induction v as [|a v (blank & IH)]; [exists []; reflexivity|]. simpl.
  destruct (is_js_space a).
  - exists (a :: blank). simpl. f_equal. exact IH.
  - exists []. reflexivity.
Qed.

Lemma trim_head v c r : trim v = c :: r -> is_js_space c = false.
Proof.
  unfold trim. intros E.
  destruct (trim_start_split (rev (trim_start v))) as (blank & S).
  apply (f_equal (@rev N)) in S.
  rewrite rev_involutive, rev_app_distr, E in S.
  exact (trim_start_head v c _ S).
Qed.

(** [trim] has nothing left to strip from its own result. *)
Lemma trim_idempotent v : trim (trim v) = trim v.
Proof.
  unfold trim at 1.
  rewrite (trim_start_fixed (trim v)) by (intros c r E; exact (trim_head v c r E)).
  unfold trim. rewrite rev_involutive, trim_start_idempotent. reflexivity.
Qed.

Lemma updateRecipeStepUI_requests s :
  requests (updateRecipeStepUI s) = requests s /\
  pending (updateRecipeStepUI s) = pending s /\
  dishInput_value (page (updateRecipeStepUI s)) = dishInput_value (page s).
Proof. unfold updateRecipeStepUI. destruct (_ =? 0); auto. Qed.

Lemma getRecipe_resume_requests o s :
  requests (getRecipe_resume o s) = requests s /\
  pending (getRecipe_resume o s) = pending s /\
  listening (getRecipe_resume o s) = listening s /\
  dishInput_value (page (getRecipe_resume o s)) = dishInput_value (page s).
Proof.
  destruct (usable_steps o) eqn:U.
  - destruct (getRecipe_resume_usable o s U) as (-> & _). simpl.
    rewrite updateRecipeStepUI_listening.
    destruct (updateRecipeStepUI_requests
                (set_currentStepIndex 0 (set_recipeSteps (steps_array o) s)))
      as (-> & -> & ->). auto.
  - destruct (getRecipe_resume_unusable o s U) as (e & -> & _). auto.
Qed.

Lemma step_requests ev s :
  requests (step ev s) = requests s \/
  exists dishName,
    trimmed_name dishName /\
    requests (step ev s) = requests s ++ [prompt dishName].
Proof.
  destruct ev; simpl; auto.
  - destruct (listening s); auto.
    destruct (handleFormSubmit_cases s) as [-> | (N & ->)]; auto.
    right. eexists. split; [split; [exact N | apply trim_idempotent]|].
    reflexivity.
  - destruct (listening s); auto. unfold handleNextStep.
    destruct (_ <? _); auto. left.
    rewrite (proj1 (updateRecipeStepUI_requests _)). reflexivity.
  - destruct (listening s); auto. unfold handlePrevStep.
    destruct (_ <? _); auto. left.
    rewrite (proj1 (updateRecipeStepUI_requests _)). reflexivity.
  - destruct (listening s); auto. left. apply updateRecipeStepUI_requests.
  - destruct (listening s); auto. unfold handleStartOver. simpl.
    destruct (speechSynthesis (win s)); auto.
  - destruct (nth_error _ i); auto.
  - destruct (pending s); auto. left.
    match goal with |- context [getRecipe_resume o ?t] =>
      apply (getRecipe_resume_requests o t) end.
Qed.

(** X12. Every request the program ever issues carries the prompt built
    around a dish name that is non-empty and has no white space left at
    either end; an empty or blank name is never sent. *)
Theorem requests_carry_trimmed_names :
  forall (d : dom) (w : window) (API_KEY : option jsstring)
         (evs : list event),
    Forall
      (fun contents =>
         exists dishName,
           dishName <> [] /\ trim dishName = dishName /\
           contents
           = lit "Generate a simple, step-by-step recipe for " ++ dishName
             ++ lit ". Provide only the instructions.")
      (requests (run evs (initialize API_KEY (loaded d w)))).
Proof.
  intros d w API_KEY evs.
  apply (run_induction
           (fun s => Forall
              (fun contents =>
                 exists dishName,
                   dishName <> [] /\ trim dishName = dishName /\
                   contents = prompt dishName) (requests s))).
  - intros ev s H.
    destruct (step_requests ev s) as [-> | (n & (N & T) & ->)]; [exact H|].
    apply Forall_app. split; [exact H|].
    constructor; [|constructor]. exists n. auto.
  - destruct API_KEY as [[|c k]|]; constructor.
Qed.

(** ** Submissions and responses together *)

Lemma step_submit s :
  listening s = true ->
  trim (dishInput_value (page s)) <> [] ->
  step SubmitForm s = getRecipe_start (trim (dishInput_value (page s))) s.
Proof.
  intros L N. simpl. rewrite L.
  destruct (handleFormSubmit_cases s) as [E | (_ & E)]; [|exact E].
  unfold handleFormSubmit in *. destruct (trim _); congruence.
Qed.

Lemma load_without_steps_outcome o s :
  usable_steps o = false ->
  recipeSteps (getRecipe_resume o s) = recipeSteps s /\
  currentStepIndex (getRecipe_resume o s) = currentStepIndex s /\
  win (getRecipe_resume o s)
  = mkWindow (speechSynthesis (win s))
             (console (win (getRecipe_resume o s))).
Proof.
  intros U. destruct (getRecipe_resume_unusable o s U) as (e & -> & _).
  repeat split.
Qed.

(** What the settling of a pending request does, in one place. *)
Lemma step_settle o s :
  pending s <> 0%nat ->
  requests (step (Settle o) s) = requests s /\
  S (pending (step (Settle o) s)) = pending s /\
  listening (step (Settle o) s) = listening s /\
  (usable_steps o = true ->
   recipeSteps (step (Settle o) s) = steps_array o /\
   currentStepIndex (step (Settle o) s) = 0 /\
   only_visible recipe (page (step (Settle o) s))) /\
  (usable_steps o = false ->
   recipeSteps (step (Settle o) s) = recipeSteps s /\
   currentStepIndex (step (Settle o) s) = currentStepIndex s /\
   only_visible error (page (step (Settle o) s))).
Proof.
  intros Pn. simpl. destruct (pending s) as [|n]; [congruence|].
  match goal with |- context [getRecipe_resume o ?t] => set (t0 := t) end.
  destruct (getRecipe_resume_requests o t0) as (Rq & Pd & Ls & _).
  rewrite Rq, Pd, Ls. repeat split; try reflexivity.
  - destruct (getRecipe_resume_usable o t0 H) as (-> & _). simpl.
    apply updateRecipeStepUI_recipeSteps.
  - destruct (getRecipe_resume_usable o t0 H) as (-> & _). simpl.
    apply updateRecipeStepUI_currentStepIndex.
  - apply (getRecipe_resume_one_view o t0); assumption.
  - apply (getRecipe_resume_one_view o t0); assumption.
  - destruct (load_without_steps_outcome o t0 H) as (A & _). exact A.
  - destruct (load_without_steps_outcome o t0 H) as (_ & A & _). exact A.
  - apply (getRecipe_resume_one_view o t0); assumption.
  - apply (getRecipe_resume_one_view o t0); assumption.
Qed.

(** X13. Nothing guards a second submission while a request is pending:
    two submissions in a row issue two requests for the same dish, and
    when both settle it is the response that settles last that decides
    the outcome; if that one carries steps, they are loaded at index [0]
    in the recipe view whatever the first response was. *)
Theorem second_submission_is_not_guarded :
  forall (s : state) (o1 o2 : outcome),
    listening s = true ->
    trim (dishInput_value (page s)) <> [] ->
    usable_steps o2 = true ->
    let dishName := trim (dishInput_value (page s)) in
    let r := run [SubmitForm; SubmitForm; Settle o1; Settle o2] s in
    requests r = requests s ++ [prompt dishName; prompt dishName] /\
    pending r = pending s /\
    recipeSteps r = steps_array o2 /\
    currentStepIndex r = 0 /\
    only_visible recipe (page r).
Proof.
  intros s o1 o2 L N U dishName r. subst r. cbn [run].
  rewrite (step_submit s L N). fold dishName.
  set (s1 := getRecipe_start dishName s).
  assert (E1 : step SubmitForm s1 = getRecipe_start dishName s1)
    by (apply (step_submit s1); [exact L | exact N]).
  rewrite E1. set (s2 := getRecipe_start dishName s1).
  assert (P2 : pending s2 = S (S (pending s))) by reflexivity.
  assert (R2 : requests s2 = requests s ++ [prompt dishName; prompt dishName]).
  { simpl. rewrite <- app_assoc. reflexivity. }
  destruct (step_settle o1 s2) as (Rq3 & Pn3 & _); [rewrite P2; discriminate|].
  set (s3 := step (Settle o1) s2) in *.
  assert (P3 : pending s3 = S (pending s)) by (rewrite P2 in Pn3; congruence).
  destruct (step_settle o2 s3) as (Rq4 & Pn4 & _ & Hu & _);
    [rewrite P3; discriminate|].
  destruct (Hu U) as (A & B & C).
  rewrite Rq4, Rq3, R2. split; [reflexivity|].
  split; [rewrite P3 in Pn4; congruence|].
  split; [exact A|]. split; [exact B | exact C].
Qed.

Lemma second_submission_is_not_guarded_witness :
  List.length
    (requests
       (run [SubmitForm; SubmitForm; Settle no_recipe; Settle omelette]
            (step (EditDish (lit "omelette")) (started browser)))) = 2%nat /\
  only_visible recipe
    (page (run [SubmitForm; SubmitForm; Settle no_recipe; Settle omelette]
               (step (EditDish (lit "omelette")) (started browser)))).
Proof.
  assert (L : listening (step (EditDish (lit "omelette")) (started browser))
              = true) by run_it.
  assert (N : trim (dishInput_value
                      (page (step (EditDish (lit "omelette"))
                                  (started browser)))) <> [])
    by (vm_compute; discriminate).
  assert (U : usable_steps omelette = true) by reflexivity.
  destruct (second_submission_is_not_guarded _ no_recipe omelette L N U)
    as (R & _ & _ & _ & V).
  split; [rewrite R; vm_compute; reflexivity | exact V].
Defined.

(** X14. From start-up with a key to the first step: typing a dish name
    that is not blank, submitting it and receiving an array of at least
    one step issues exactly one request, for the trimmed name, and ends
    in the recipe view on the first step, with "previous" disabled and
    "next" disabled exactly when the recipe has a single step. *)
Theorem first_recipe_opens_on_first_step :
  forall (d : dom) (w : window) (API_KEY : option jsstring)
         (value : jsstring) (first : jsval) (others : list jsval),
    missing_key API_KEY = false ->
    trim value <> [] ->
    let s := run [EditDish value; SubmitForm;
                  Settle (Parsed (RObj [(lit "steps",
                                         JArr (first :: others))]))]
                 (initialize API_KEY (loaded d w)) in
    requests s = [prompt (trim value)] /\
    pending s = 0%nat /\
    only_visible recipe (page s) /\
    recipeSteps s = first :: others /\
    currentStepIndex s = 0 /\
    recipeStepText_textContent (page s) = Some first /\
    prevStepBtn_disabled (page s) = true /\
    nextStepBtn_disabled (page s)
    = match others with [] => true | _ :: _ => false end /\
    win s = speak (Some first) w.
Proof.
  intros d w API_KEY value first others K N s. subst s.
  destruct API_KEY as [[|c k]|]; try discriminate K.
  cbn [run]. set (s0 := step (EditDish value) _).
  assert (E : step SubmitForm s0 = getRecipe_start (trim value) s0)
    by (apply (step_submit s0); [reflexivity | exact N]).
  rewrite E. cbn [step getRecipe_start pending].
  set (o := Parsed _).
  assert (U : usable_steps o = true) by reflexivity.
  match goal with |- context [getRecipe_resume o ?t] =>
    destruct (getRecipe_resume_usable o t U) as (-> & _) end.
  change (steps_array o) with (first :: others).
  split; [reflexivity|]. split; [reflexivity|].
  split; [apply showView_only_visible|].
  split; [reflexivity|]. split; [reflexivity|].
  split; [reflexivity|]. split; [reflexivity|].
  split; [|reflexivity].
  cbn. destruct others; [reflexivity|].
  cbn. destruct (Pos.of_succ_nat _); reflexivity.
Qed.

Lemma first_recipe_opens_on_first_step_witness :
  recipeStepText_textContent
    (page (run [EditDish (lit " omelette"); SubmitForm;
                Settle (Parsed (RObj [(lit "steps",
                                       JArr [JStr (lit "Crack eggs");
                                             JStr (lit "Whisk")])]))]
               (initialize (Some (lit "key")) (loaded page0 browser))))
  = Some (JStr (lit "Crack eggs")).
Proof.
  assert (N : trim (lit " omelette") <> []) by (vm_compute; discriminate).
  exact (proj1 (proj2 (proj2 (proj2 (proj2 (proj2
           (first_recipe_opens_on_first_step page0 browser (Some (lit "key"))
              (lit " omelette") (JStr (lit "Crack eggs"))
              [JStr (lit "Whisk")] eq_refl N))))))).
Defined.

(** ** Start over in a browser that can speak *)

(** X15. Where the browser has speech synthesis, a click on "start over"
    silences it and clears the session: the speech queue is emptied, the
    input view is the one visible view, no steps are loaded, the index is
    [0] and the dish field is empty; the request log and the count of
    pending requests are untouched. *)
Theorem start_over_with_speech_resets :
  forall (s : state) (queue : list utterance),
    listening s = true ->
    speechSynthesis (win s) = Some queue ->
    let r := step ClickStartOver s in
    speechSynthesis (win r) = Some [] /\
    only_visible input (page r) /\
    recipeSteps r = [] /\
    currentStepIndex r = 0 /\
    dishInput_value (page r) = [] /\
    requests r = requests s /\
    pending r = pending s.
Proof.
  intros s queue L Q r. subst r. simpl. rewrite L.
  destruct (handleStartOver_with_speech s queue Q)
    as (s' & E & V & St & Ix & Dv & Sp).
  rewrite E. simpl. split; [exact Sp|]. split; [exact V|].
  split; [exact St|]. split; [exact Ix|]. split; [exact Dv|].
  unfold handleStartOver in E. simpl in E. rewrite Q in E.
  injection E as <-. split; reflexivity.
Qed.

Lemma start_over_with_speech_resets_witness :
  speechSynthesis (win (step ClickStartOver (cooking browser))) = Some [] /\
  only_visible input (page (step ClickStartOver (cooking browser))).
Proof.
  assert (L : listening (cooking browser) = true) by run_it.
  assert (Q : speechSynthesis (win (cooking browser))
              = Some [mkUtterance (Some (JStr (lit "Crack eggs")))
                                  (lit "en-US")]) by run_it.
  destruct (start_over_with_speech_resets _ _ L Q) as (A & B & _).
  split; [exact A | exact B].
Defined.

(** X16. Start over does not call off a request in flight: if one is
    pending when the user starts over and its response then arrives with
    steps, the recipe view comes up again with those steps at index [0]
    and the first of them is read aloud. *)
Theorem start_over_keeps_pending_request :
  forall (s : state) (o : outcome),
    listening s = true ->
    pending s <> 0%nat ->
    usable_steps o = true ->
    let r := run [ClickStartOver; Settle o] s in
    only_visible recipe (page r) /\
    recipeSteps r = steps_array o /\
    currentStepIndex r = 0 /\
    S (pending r) = pending s.
Proof.
  intros s o L Pn U r. subst r. cbn [run].
  assert (P1 : pending (step ClickStartOver s) = pending s).
  { simpl. rewrite L. unfold handleStartOver. simpl.
    destruct (speechSynthesis (win s)); reflexivity. }
  destruct (step_settle o (step ClickStartOver s))
    as (_ & Pd & _ & Hu & _); [rewrite P1; exact Pn|].
  destruct (Hu U) as (A & B & C).
  split; [exact C|]. split; [exact A|]. split; [exact B|].
  rewrite Pd. exact P1.
Qed.

Lemma start_over_keeps_pending_request_witness :
  only_visible recipe
    (page (run [ClickStartOver; Settle omelette]
               (run [EditDish (lit "omelette"); SubmitForm]
                    (started browser)))).
Proof.
  assert (L : listening (run [EditDish (lit "omelette"); SubmitForm]
                             (started browser)) = true) by run_it.
  assert (Pn : pending (run [EditDish (lit "omelette"); SubmitForm]
                            (started browser)) <> 0%nat)
    by (vm_compute; discriminate).
  exact (proj1 (start_over_keeps_pending_request _ omelette L Pn eq_refl)).
Defined.

(** ** Runs in which every response is as expected *)

Lemma expected_usable_strings o :
  expected_response o = true -> usable_steps o = true ->
  forallb is_string (steps_array o) = true.
Proof.
  destruct o as [e|[v|members]]; try discriminate. simpl.
  destruct (get_member (lit "steps") members) as [[|b|n|t|l]|];
    try discriminate. auto.
Qed.

Lemma step_strings ev s :
  expected_event ev = true ->
  forallb is_string (recipeSteps s) = true ->
  forallb is_string (recipeSteps (step ev s)) = true.
Proof.
  intros Ex H. destruct ev; simpl; try exact H.
  - destruct (listening s); [|exact H].
    destruct (handleFormSubmit_cases s) as [-> | (_ & ->)]; exact H.
  - destruct (listening s); [|exact H]. unfold handleNextStep.
    destruct (_ <? _); [|exact H].
    rewrite updateRecipeStepUI_recipeSteps. exact H.
  - destruct (listening s); [|exact H]. unfold handlePrevStep.
    destruct (_ <? _); [|exact H].
    rewrite updateRecipeStepUI_recipeSteps. exact H.
  - destruct (listening s); [|exact H].
    unfold handleRepeatStep. rewrite updateRecipeStepUI_recipeSteps. exact H.
  - destruct (listening s); [|exact H]. unfold handleStartOver. simpl.
    destruct (speechSynthesis (win s)); reflexivity.
  - destruct (nth_error _ i); exact H.
  - destruct (pending s); [exact H|]. simpl in Ex.
    destruct (usable_steps o) eqn:U.
    + match goal with |- context [getRecipe_resume o ?t] =>
        destruct (getRecipe_resume_usable o t U) as (-> & _) end.
      simpl. rewrite updateRecipeStepUI_recipeSteps. simpl.
      apply expected_usable_strings; assumption.
    + match goal with |- context [getRecipe_resume o ?t] =>
        rewrite (proj1 (load_without_steps_outcome o t U)) end.
      exact H.
Qed.

Lemma run_strings evs : forall s,
  forallb expected_event evs = true ->
  forallb is_string (recipeSteps s) = true ->
  forallb is_string (recipeSteps (run evs s)) = true.
Proof.
  induction evs as [|ev rest IH]; intros s Ex H; simpl; [exact H|].
  simpl in Ex. apply andb_true_iff in Ex as (E1 & E2).
  apply IH; [exact E2 | apply step_strings; assumption].
Qed.

Lemma index_string l i x :
  forallb is_string l = true -> index l i = Some x ->
  exists text, x = JStr text.
Proof.
  intros F X. unfold index in X. destruct (i <? 0); [discriminate|].
  apply nth_error_In in X.
  pose proof (proj1 (forallb_forall is_string l) F x X) as S.
  destruct x; try discriminate. eauto.
Qed.

(** The current step of a run whose responses were all as expected. *)
Lemma run_current_step d w API_KEY evs :
  forallb expected_event evs = true ->
  recipeSteps (run evs (initialize API_KEY (loaded d w))) <> [] ->
  exists text,
    index (recipeSteps (run evs (initialize API_KEY (loaded d w))))
          (currentStepIndex (run evs (initialize API_KEY (loaded d w))))
    = Some (JStr text).
Proof.
  intros Ex N. set (s := run evs _) in *.
  assert (I : index_invariant s)
    by apply run_invariant, initialize_invariant.
  apply index_invariant_elim in I as (I0 & _ & I2). specialize (I2 N).
  destruct (index_in_range (recipeSteps s) (currentStepIndex s))
    as (x & X); [lia|].
  assert (F : forallb is_string (recipeSteps s) = true).
  { apply run_strings; [exact Ex|].
    destruct API_KEY as [[|c k]|]; reflexivity. }
  destruct (index_string _ _ _ F X) as (text & ->). eauto.
Qed.

(** X3. As long as every response is a failure or what the service was
    asked for (an object whose [steps], if present, is an array of
    strings), in a browser with speech synthesis the recipe view is never
    shown empty: whenever it is visible, steps are loaded, the index
    points at one of them, that step is a string and the step text shows
    it. *)
Theorem recipe_view_shows_a_step :
  forall (d : dom) (w : window) (API_KEY : option jsstring)
         (evs : list event),
    let s := run evs (initialize API_KEY (loaded d w)) in
    forallb expected_event evs = true ->
    speechSynthesis w <> None ->
    visible recipe (page s) = true ->
    recipeSteps s <> [] /\
    exists text,
      index (recipeSteps s) (currentStepIndex s) = Some (JStr text) /\
      recipeStepText_textContent (page s) = Some (JStr text).
Proof.
  intros d w API_KEY evs s Ex Sup Vis.
  destruct (run_views_inv API_KEY d w evs) as (_ & _ & Hr). fold s in Hr.
  assert (N : recipeSteps s <> []).
  { apply Hr; [|exact Vis]. intros E. apply run_support in E.
    destruct API_KEY as [[|c k]|]; exact (Sup E). }
  split; [exact N|].
  destruct (run_current_step d w API_KEY evs Ex N) as (text & X).
  fold s in X. exists text. split; [exact X|].
  assert (R : reachable s) by (exists d, w, API_KEY, evs; reflexivity).
  destruct (reachable_in_sync s R N) as (T & _). rewrite T. exact X.
Qed.

Lemma recipe_view_shows_a_step_witness :
  recipeSteps
    (run [EditDish (lit "omelette"); SubmitForm; Settle omelette; ClickNext]
         (initialize (Some (lit "key")) (loaded page0 browser))) <> [] /\
  exists text,
    index (recipeSteps
             (run [EditDish (lit "omelette"); SubmitForm; Settle omelette;
                   ClickNext]
                  (initialize (Some (lit "key")) (loaded page0 browser))))
          (currentStepIndex
             (run [EditDish (lit "omelette"); SubmitForm; Settle omelette;
                   ClickNext]
                  (initialize (Some (lit "key")) (loaded page0 browser))))
    = Some (JStr text) /\
    recipeStepText_textContent
      (page (run [EditDish (lit "omelette"); SubmitForm; Settle omelette;
                  ClickNext]
                 (initialize (Some (lit "key")) (loaded page0 browser))))
    = Some (JStr text).
Proof.
  apply (recipe_view_shows_a_step page0 browser (Some (lit "key"))
           [EditDish (lit "omelette"); SubmitForm; Settle omelette;
            ClickNext]).
  - vm_compute. reflexivity.
  - discriminate.
  - vm_compute. reflexivity.
Defined.

(** X5. Nothing but the step on screen is waiting to be spoken.  As
    long as every response is a failure or what the service was asked
    for, whenever steps are loaded and the browser can speak, the speech
    queue built by the module holds at most one utterance, and any
    utterance in it is the string at the current index, in [en-US]. *)
Theorem spoken_step_is_current_step :
  forall (d : dom) (w : window) (API_KEY : option jsstring)
         (evs : list event) (queue : list utterance),
    let s := run evs (initialize API_KEY (loaded d w)) in
    forallb expected_event evs = true ->
    recipeSteps s <> [] ->
    speechSynthesis (win s) = Some queue ->
    exists text,
      index (recipeSteps s) (currentStepIndex s) = Some (JStr text) /\
      (List.length queue <= 1)%nat /\
      forall u, In u queue ->
                u = mkUtterance (Some (JStr text)) (lit "en-US").
Proof.
  intros d w API_KEY evs queue s Ex N Q.
  assert (S : speech_in_sync s).
  { apply run_induction; [apply step_speech_in_sync|].
    destruct API_KEY as [[|c k]|]; intros N'; simpl in N'; congruence. }
  destruct (run_current_step d w API_KEY evs Ex N) as (text & X).
  fold s in X. exists text. split; [exact X|].
  rewrite (S N queue Q). unfold current_utterance. rewrite X.
  split; [simpl; lia|].
  intros u [<- | []]. reflexivity.
Qed.

Lemma spoken_step_is_current_step_witness :
  exists text,
    index
      (recipeSteps
         (run [EditDish (lit "omelette"); SubmitForm; Settle omelette;
               ClickNext]
              (initialize (Some (lit "key")) (loaded page0 browser))))
      (currentStepIndex
         (run [EditDish (lit "omelette"); SubmitForm; Settle omelette;
               ClickNext]
              (initialize (Some (lit "key")) (loaded page0 browser))))
    = Some (JStr text) /\
    (List.length [mkUtterance (Some (JStr (lit "Whisk"))) (lit "en-US")]
     <= 1)%nat /\
    forall u,
      In u [mkUtterance (Some (JStr (lit "Whisk"))) (lit "en-US")] ->
      u = mkUtterance (Some (JStr text)) (lit "en-US").
Proof.
  assert (Ex : forallb expected_event
                 [EditDish (lit "omelette"); SubmitForm; Settle omelette;
                  ClickNext] = true)
    by (vm_compute; reflexivity).
  assert (N : recipeSteps
                (run [EditDish (lit "omelette"); SubmitForm; Settle omelette;
                      ClickNext]
                     (initialize (Some (lit "key")) (loaded page0 browser)))
              <> [])
    by (vm_compute; discriminate).
  assert (Q : speechSynthesis
                (win (run [EditDish (lit "omelette"); SubmitForm;
                           Settle omelette; ClickNext]
                          (initialize (Some (lit "key"))
                                      (loaded page0 browser))))
              = Some [mkUtterance (Some (JStr (lit "Whisk"))) (lit "en-US")])
    by (vm_compute; reflexivity).
  exact (spoken_step_is_current_step page0 browser (Some (lit "key"))
           [EditDish (lit "omelette"); SubmitForm; Settle omelette; ClickNext]
           _ Ex N Q).
Defined.
